(** * Ticker scoreboard bot: a shallow embedding of [bot.py]

    The development follows the structure of the program:

    - [Text]: the string primitives of Python the program relies on
      ([str.upper], [str.lower], [str.strip], comparison of strings);
    - [TICKER_RE]: the compiled pattern [TICKER_RE] and [finditer];
    - [Filter]: [is_candidate_ticker] and [extract_tickers];
    - [Py]: the fragment of Python's dynamic values needed for the
      configuration ([or]-defaulting, [int()], [float()], slices, [sorted]);
    - [Scoreboard]: [build_scoreboard], the single-thread aggregator;
    - [Radar]: [build_cross_sub_radar], the cross-subreddit aggregator.

    Text is modelled as strings of ASCII characters (the characters on which
    [str.upper], [str.lower] and [str.strip] act as defined below); Python
    floats are the binary64 numbers of [PrimFloat]; dictionaries are finite
    maps and Python sets are finite sets. *)

From Stdlib Require Import ZArith Floats Ascii String List Bool Lia DecimalString.
From stdpp Require Import gmap strings list fin_maps sorting.

Set Warnings "-inexact-float".

Local Open Scope string_scope.
Local Open Scope list_scope.

(** ** Text primitives *)
Module Text.

Definition code (c : ascii) : N := N_of_ascii c.

Definition is_AZ (c : ascii) : bool := ((65 <=? code c) && (code c <=? 90))%N.
Definition is_az (c : ascii) : bool := ((97 <=? code c) && (code c <=? 122))%N.
Definition is_09 (c : ascii) : bool := ((48 <=? code c) && (code c <=? 57))%N.
Definition is_dollar (c : ascii) : bool := (code c =? 36)%N.

(** ASCII white space as [str.strip] sees it: TAB, LF, VT, FF, CR,
    the separators FS, GS, RS, US and the space. *)
Definition is_space (c : ascii) : bool :=
  (((9 <=? code c) && (code c <=? 13)) || ((28 <=? code c) && (code c <=? 32)))%N.

Definition upper_char (c : ascii) : ascii :=
  if is_az c then ascii_of_N (code c - 32) else c.
Definition lower_char (c : ascii) : ascii :=
  if is_AZ c then ascii_of_N (code c + 32) else c.

Definition chars (s : string) : list ascii := list_ascii_of_string s.
Definition str (l : list ascii) : string := string_of_list_ascii l.

(** [s.upper()] and [s.lower()] *)
Definition upper (s : string) : string := str (map upper_char (chars s)).
Definition lower (s : string) : string := str (map lower_char (chars s)).

Fixpoint lstrip (l : list ascii) : list ascii :=
  match l with
  | c :: l' => if is_space c then lstrip l' else l
  | [] => []
  end.

(** [s.strip()] *)
Definition strip (s : string) : string :=
  str (rev (lstrip (rev (lstrip (chars s))))).

(** [len(s)] *)
Definition len (s : string) : nat := String.length s.

(** [s.startswith("$")] *)
Definition starts_with_dollar (s : string) : bool :=
  match s with
  | String c _ => is_dollar c
  | EmptyString => false
  end.

(** [s[1:]] *)
Definition tail (s : string) : string :=
  match s with
  | String _ s' => s'
  | EmptyString => EmptyString
  end.

(** [a < b] on strings: lexicographic on code points *)
Definition lt (a b : string) : bool := String.ltb a b.

End Text.

(** ** The recogniser: [TICKER_RE] and [finditer]

    [TICKER_RE = (?<![A-Z0-9$])(\$?[A-Z]{1,5})(?![A-Z0-9])] *)
Module TICKER_RE.
Import Text.

(** [(?<![A-Z0-9$])]: the character before the match, if there is one. *)
Definition lookbehind_ok (prev : option ascii) : bool :=
  match prev with
  | None => true
  | Some c => negb (is_AZ c || is_09 c || is_dollar c)
  end.

(** [(?![A-Z0-9])]: the character after the match, if there is one. *)
Definition lookahead_ok (rest : list ascii) : bool :=
  match rest with
  | [] => true
  | c :: _ => negb (is_AZ c || is_09 c)
  end.

(** [[A-Z]{k}(?![A-Z0-9])] at the head of [s]: the [k] letters and what
    follows them. *)
Definition letters_k (k : nat) (s : list ascii) : option (list ascii * list ascii) :=
  let w := take k s in
  let rest := drop k s in
  if (length w =? k)%nat && forallb is_AZ w && lookahead_ok rest
  then Some (w, rest) else None.

(** [[A-Z]{1,5}(?![A-Z0-9])]: the quantifier is greedy, and the engine
    backtracks into shorter runs when the look-ahead fails. *)
Definition letters_1_5 (s : list ascii) : option (list ascii * list ascii) :=
  match letters_k 5 s with Some r => Some r | None =>
  match letters_k 4 s with Some r => Some r | None =>
  match letters_k 3 s with Some r => Some r | None =>
  match letters_k 2 s with Some r => Some r | None =>
  letters_k 1 s end end end end.

(** The whole pattern tried at one position: [prev] is the character before
    the position, [s] the text from the position on.  [\$?] is greedy: the
    engine first takes the dollar sign and falls back to the empty match. *)
Definition match_at (prev : option ascii) (s : list ascii)
  : option (list ascii * list ascii) :=
  if lookbehind_ok prev then
    match s with
    | c :: s' =>
        if is_dollar c then
          match letters_1_5 s' with
          | Some (w, rest) => Some (c :: w, rest)
          | None => letters_1_5 s
          end
        else letters_1_5 s
    | [] => None
    end
  else None.

(** [finditer]: leftmost matches, not overlapping, scanning resumes where
    the previous match ended.  [skip] counts the characters of the last
    match that are still to be passed over. *)
Fixpoint scan (skip : nat) (prev : option ascii) (pos : nat) (s : list ascii)
  : list (nat * list ascii) :=
  match s with
  | [] => []
  | c :: s' =>
      match skip with
      | S k => scan k (Some c) (S pos) s'
      | O =>
          match match_at prev s with
          | Some (w, _) => (pos, w) :: scan (length w - 1) (Some c) (S pos) s'
          | None => scan 0 (Some c) (S pos) s'
          end
      end
  end.

(** [TICKER_RE.finditer(text)] as the list of (start, group 1). *)
Definition finditer (text : string) : list (nat * string) :=
  map (fun m => (m.1, str m.2)) (scan 0 None 0 (chars text)).

End TICKER_RE.

(** ** The candidacy filter and [extract_tickers] *)
Module Filter.
Import Text TICKER_RE.

(** The literal set [{"AAAA", "BBBB", "CCCC"}] of [is_candidate_ticker]. *)
Definition REJECT : gset string := {[ "AAAA"; "BBBB"; "CCCC" ]}.

Definition is_candidate_ticker (raw : string) (stopwords : gset string) : bool :=
  let t := upper raw in
  let after_prefix (t : string) : bool :=
    if (len t =? 1)%nat then false
    else if bool_decide (t ∈ stopwords) then false
    else if bool_decide (t ∈ REJECT) then false
    else true in
  if starts_with_dollar t then
    let t2 := tail t in
    if (len t2 =? 1)%nat then true else after_prefix t2
  else after_prefix t.

(** [raw[1:] if raw.startswith("$") else raw] *)
Definition canonical (raw : string) : string :=
  if starts_with_dollar raw then tail raw else raw.

Definition extract_tickers (text : string) (stopwords : gset string) : list string :=
  if (len text =? 0)%nat then []
  else
    flat_map
      (fun m => let raw := m.2 in
                if is_candidate_ticker raw stopwords then [canonical raw] else [])
      (finditer (upper text)).

End Filter.

(** ** The fragment of Python the aggregators use *)
Module Py.
Import Text.

Inductive exn := ValueError | TypeError | OverflowError | AttributeError.

(** A computation that returns a value or raises. *)
Definition result (A : Type) : Type := exn + A.
Definition ok {A} (a : A) : result A := inr a.
Definition raise {A} (e : exn) : result A := inl e.
Definition bind {A B} (r : result A) (k : A -> result B) : result B :=
  match r with
  | inl e => inl e
  | inr a => k a
  end.

#[export] Instance result_ret : MRet result := @ok.
#[export] Instance result_bind : MBind result := fun A B k r => bind r k.

(** What [json.load] produces. *)
#[warnings="-register-all"]
Inductive value :=
  | VNone
  | VBool (b : bool)
  | VInt (z : Z)
  | VFloat (f : float)
  | VStr (s : string)
  | VList (l : list value)
  | VDict (d : gmap string value).

(** [bool(v)] *)
Definition truthy (v : value) : bool :=
  match v with
  | VNone => false
  | VBool b => b
  | VInt z => negb (z =? 0)%Z
  | VFloat f => negb (f =? 0)%float
  | VStr s => negb (len s =? 0)%nat
  | VList l => negb (length l =? 0)%nat
  | VDict d => negb (size d =? 0)%nat
  end.

(** [d.get(key, default)] *)
Definition get (d : gmap string value) (key : string) (dflt : value) : value :=
  default dflt (d !! key).

(** [v or dflt] *)
Definition or (v dflt : value) : value := if truthy v then v else dflt.

(** [float(z)] for an [int]: round to nearest even; the result is infinite
    exactly when CPython raises [OverflowError]. *)
Definition float_of_Z (z : Z) : float :=
  SF2Prim (binary_normalize prec emax z 0 false).

Definition float_of_int (z : Z) : result float :=
  let f := float_of_Z z in
  if is_infinity f then raise OverflowError else ok f.

(** [int(f)] for a finite [float]: truncation towards zero. *)
Definition trunc (f : float) : Z :=
  match Prim2SF f with
  | S754_finite s m e =>
      let a := if (0 <=? e)%Z then Z.shiftl (Z.pos m) e else Z.shiftr (Z.pos m) (- e) in
      if s then (- a)%Z else a
  | _ => 0%Z
  end.

(** Decimal digits of [int(s)], single underscores allowed between digits. *)
Fixpoint digits (acc : Z) (after_digit : bool) (l : list ascii) : option Z :=
  match l with
  | [] => if after_digit then Some acc else None
  | c :: l' =>
      if is_09 c then digits (10 * acc + Z.of_N (code c - 48)) true l'
      else if (code c =? 95)%N && after_digit then digits acc false l'
      else None
  end.

(** [int(s)] for a [str], base 10 *)
Definition int_of_str (s : string) : result Z :=
  let body := chars (strip s) in
  let parsed :=
    match body with
    | c :: l' =>
        if (code c =? 45)%N then Z.opp <$> digits 0 false l'
        else if (code c =? 43)%N then digits 0 false l'
        else digits 0 false body
    | [] => None
    end in
  match parsed with
  | Some z => ok z
  | None => raise ValueError
  end.

(** [int(v)] *)
Definition int (v : value) : result Z :=
  match v with
  | VBool b => ok (if b then 1 else 0)%Z
  | VInt z => ok z
  | VFloat f =>
      if is_nan f then raise ValueError
      else if is_infinity f then raise OverflowError
      else ok (trunc f)
  | VStr s => int_of_str s
  | VNone | VList _ | VDict _ => raise TypeError
  end.

(** [float(v)]; [parse] is [float] on a [str], [None] when it raises
    [ValueError]. *)
Definition float_ (parse : string -> option float) (v : value) : result float :=
  match v with
  | VBool b => ok (if b then 1 else 0)%float
  | VInt z => float_of_int z
  | VFloat f => ok f
  | VStr s =>
      match parse s with
      | Some f => ok f
      | None => raise ValueError
      end
  | VNone | VList _ | VDict _ => raise TypeError
  end.

(** [str(v)]; [repr] gives the text of a value that is not a [str]. *)
Definition str_ (repr : value -> string) (v : value) : string :=
  match v with
  | VStr s => s
  | _ => repr v
  end.

(** [for x in v]: the elements the loop visits, or [TypeError] when [v] is
    not iterable.  A [str] yields its characters, a [dict] its keys. *)
Definition iter (v : value) : result (list value) :=
  match v with
  | VList l => ok l
  | VStr s => ok (map (fun c => VStr (String c EmptyString)) (chars s))
  | VDict d => ok (map (fun kv => VStr kv.1) (map_to_list d))
  | VNone | VBool _ | VInt _ | VFloat _ => raise TypeError
  end.

(** A loop whose body may raise: the first exception ends it. *)
Fixpoint for_each {A S} (body : S -> A -> result S) (st : S) (l : list A) : result S :=
  match l with
  | [] => ok st
  | x :: l' => st' ← body st x; for_each body st' l'
  end.

(** [l[:n]] *)
Definition slice_to {A} (n : Z) (l : list A) : list A :=
  if (0 <=? n)%Z then take (Z.to_nat n) l
  else take (length l - Z.to_nat (- n)) l.

(** [max(a, b)] and [min(a, b)] on floats: the first argument is kept
    unless the second is strictly better. *)
Definition fmax (a b : float) : float := if (a <? b)%float then b else a.
Definition fmin (a b : float) : float := if (b <? a)%float then b else a.

(** [sorted(l, key=..., reverse=True)], with [lt] the comparison of the keys
    of two elements: a stable sort into descending order. *)
Section Sorted.
Context {A : Type} (lt : A -> A -> bool).

Fixpoint insert_desc (x : A) (l : list A) : list A :=
  match l with
  | [] => [x]
  | y :: l' => if lt x y then y :: insert_desc x l' else x :: l
  end.

Definition sorted_reverse (l : list A) : list A := foldr insert_desc [] l.

End Sorted.

End Py.

(** ** Settings read from the environment *)
Module Env.
Import Text Py.

(** [_env_int(name, default)], [v] the value of [os.getenv(name, "")] *)
Definition _env_int (v : string) (dflt : Z) : Z :=
  if (len (strip v) =? 0)%nat then dflt
  else
    match int_of_str v with
    | inr z => z
    | inl _ => dflt
    end.

End Env.

(** ** [build_scoreboard]: unique authors per ticker in one thread *)
Module Scoreboard.
Import Text Filter Py.

(** A top-level comment of the thread, as the loop reads it. *)
Record comment := {
  body : option string;       (* [None]: the object has no [body] *)
  author : option string;     (* [None]: [c.author is None]; else [str(c.author)] *)
  score : option Z;           (* [None]: no [score], or [None] *)
  permalink : option string;  (* [None]: no [permalink] *)
}.

Record item := {
  ticker : string;
  unique_authors : nat;
  best_comment : option string;
}.

Record state := {
  ticker_authors : gmap string (gset string);
  ticker_best_comment : gmap string (Z * string);
}.

Definition init : state :=
  {| ticker_authors := ∅; ticker_best_comment := ∅ |}.

Definition REDDIT : string := "https://www.reddit.com".

(** The body of [for t in tickers]. *)
Definition note (author : string) (score : Z) (link : string)
    (t : string) (st : state) : state :=
  let authors := default ∅ (ticker_authors st !! t) ∪ {[ author ]} in
  {| ticker_authors := <[t := authors]> (ticker_authors st);
     ticker_best_comment :=
       match ticker_best_comment st !! t with
       | None => <[t := (score, link)]> (ticker_best_comment st)
       | Some prev =>
           if (prev.1 <? score)%Z
           then <[t := (score, link)]> (ticker_best_comment st)
           else ticker_best_comment st
       end |}.

(** The body of [for c in top]. *)
Definition step (stopwords : gset string) (st : state) (c : comment) : state :=
  match body c with
  | None => st
  | Some b =>
      match author c with
      | None => st
      | Some a =>
          let author := lower a in
          let tickers : gset string := list_to_set (extract_tickers b stopwords) in
          if decide (tickers = ∅) then st
          else
            let score := default 0%Z (score c) in
            let link := REDDIT +:+ default "" (permalink c) in
            set_fold (note author score link) st tickers
      end
  end.

Definition tally (stopwords : gset string) (top : list comment) : state :=
  foldl (step stopwords) init top.

(** [(len(a[1]), a[0]) < (len(b[1]), b[0])] *)
Definition key_lt (a b : string * gset string) : bool :=
  if (size a.2 =? size b.2)%nat then Text.lt a.1 b.1
  else (size a.2 <? size b.2)%nat.

Definition ranked (st : state) (max_tickers : Z) : list (string * gset string) :=
  slice_to max_tickers (sorted_reverse key_lt (map_to_list (ticker_authors st))).

Definition make_item (st : state) (kv : string * gset string) : item :=
  let best := ticker_best_comment st !! kv.1 in
  {| ticker := kv.1;
     unique_authors := size kv.2;
     best_comment := match best with Some b => Some b.2 | None => None end |}.

Definition build_scoreboard (top : list comment) (stopwords : gset string)
    (max_tickers : Z) : list item :=
  let st := tally stopwords top in
  map (make_item st) (ranked st max_tickers).

End Scoreboard.

(** ** [build_cross_sub_radar]: weighted engagement across subreddits *)
Module Radar.
Import Text Filter Py.

(** A submission, as the loop reads it.  [created_utc] is the instant
    [_dt_from_utc(post.created_utc)] in microseconds since the epoch. *)
Record post := {
  created_utc : option Z;     (* [None]: reading or converting it raises *)
  title : option string;      (* [None]: missing, or [None] *)
  selftext : option string;
  score : option Z;
  num_comments : option Z;
  permalink : option string;
}.

(** What the aggregator takes from its environment: the C library, the
    text conversions of floats, and the listings of Reddit.  A listing is
    the sequence of posts together with the reading of the clock
    ([datetime.now], microseconds since the epoch) when each is examined. *)
Record runtime := {
  log1p : float -> float;                         (* [math.log1p] *)
  round2 : float -> float;                        (* [round(x, 2)] *)
  float_of_str : string -> option float;          (* [float(s)] *)
  repr : value -> string;                         (* [str(v)], [v] not a [str] *)
  hot : string -> Z -> list (Z * post);           (* [sub.hot(limit=n)] *)
  new : string -> Z -> list (Z * post);           (* [sub.new(limit=n)] *)
  top : string -> Z -> option (list (Z * post));  (* [None]: [sub.top] raises *)
}.

Record source := {
  name : string;
  weight : float;
  mode : string;
  limit_posts : Z;
  lookback_hours : Z;
}.

Record item := {
  ticker : string;
  score_2dp : float;
  best_post : option string;
  best_src_name : option string;
}.

Record state := {
  agg_score : gmap string float;
  best_link : gmap string (float * string);
  best_src : gmap string string;
}.

Definition init : state :=
  {| agg_score := ∅; best_link := ∅; best_src := ∅ |}.

Definition REDDIT : string := "https://www.reddit.com".
Definition NL : string := String (ascii_of_N 10) EmptyString.

Definition US_PER_HOUR : Z := 3600000000.
Definition US_PER_DAY : Z := 86400000000.
(** [datetime.min] and [datetime.max] in microseconds since the epoch *)
Definition DATETIME_MIN : Z := -62135596800000000.
Definition DATETIME_MAX : Z := 253402300799999999.

(** [timedelta(hours=h)]: at most 999999999 days either way. *)
Definition timedelta_hours (h : Z) : result Z :=
  let us := (h * US_PER_HOUR)%Z in
  let days := (us / US_PER_DAY)%Z in
  if ((-999999999 <=? days) && (days <=? 999999999))%Z then ok us
  else raise OverflowError.

(** [t - delta] on an aware [datetime] *)
Definition datetime_sub (t delta : Z) : result Z :=
  let r := (t - delta)%Z in
  if ((DATETIME_MIN <=? r) && (r <=? DATETIME_MAX))%Z then ok r
  else raise OverflowError.

(** [_within_hours(created_utc, hours)], the clock reading [now]. *)
Definition _within_hours (now created : Z) (hours : Z) : result bool :=
  delta ← timedelta_hours hours;
  cutoff ← datetime_sub now delta;
  ok (cutoff <=? created)%Z.

(** The fields of one entry of [cross_subs], as the loop reads them. *)

(** [str(s.get("name", "")).strip()] *)
Definition name_of (rt : runtime) (s : gmap string value) : string :=
  strip (str_ (repr rt) (get s "name" (VStr ""))).

(** [float(s.get("weight", 0.35) or 0.35)] *)
Definition weight_of (rt : runtime) (s : gmap string value) : result float :=
  float_ (float_of_str rt) (or (get s "weight" (VFloat 0.35)) (VFloat 0.35)).

(** [str(s.get("mode", "hot")).lower().strip()] *)
Definition mode_of (rt : runtime) (s : gmap string value) : string :=
  strip (lower (str_ (repr rt) (get s "mode" (VStr "hot")))).

(** [int(s.get("limit_posts", 40) or 40)] *)
Definition limit_posts_of (s : gmap string value) : result Z :=
  int (or (get s "limit_posts" (VInt 40)) (VInt 40)).

(** [int(s.get("lookback_hours", 24) or 24)] *)
Definition lookback_hours_of (s : gmap string value) : result Z :=
  int (or (get s "lookback_hours" (VInt 24)) (VInt 24)).

(** [int(cfg.get("cross_max_tickers", 8) or 8)] *)
Definition max_out_of (cfg : gmap string value) : result Z :=
  int (or (get cfg "cross_max_tickers" (VInt 8)) (VInt 8)).

(** The body of [for s in subs] up to the listing: [None] when the source
    has no name and is passed over.  An entry that is not a [dict] has no
    [get]. *)
Definition read_source (rt : runtime) (s : value) : result (option source) :=
  match s with
  | VDict s =>
      let name := name_of rt s in
      if (len name =? 0)%nat then ok None
      else
        weight ← weight_of rt s;
        let mode := mode_of rt s in
        limit_posts ← limit_posts_of s;
        lookback_hours ← lookback_hours_of s;
        ok (Some {| name := name; weight := weight; mode := mode;
                    limit_posts := limit_posts; lookback_hours := lookback_hours |})
  | _ => raise AttributeError
  end.

Definition listing (rt : runtime) (src : source) : list (Z * post) :=
  if String.eqb (mode src) "new" then new rt (name src) (limit_posts src)
  else if String.eqb (mode src) "top" then
    match top rt (name src) (limit_posts src) with
    | Some it => it
    | None => hot rt (name src) (limit_posts src)
    end
  else hot rt (name src) (limit_posts src).

(** The body of [for t in tickers]. *)
Definition credit (src : source) (engagement : float) (url : string)
    (t : string) (st : state) : state :=
  let inc := (weight src * engagement)%float in
  let agg := <[t := (default 0%float (agg_score st !! t) + inc)%float]> (agg_score st) in
  let better :=
    match best_link st !! t with
    | None => true
    | Some prev => (prev.1 <? inc)%float
    end in
  if better then
    {| agg_score := agg;
       best_link := <[t := (inc, url)]> (best_link st);
       best_src := <[t := "r/" +:+ name src]> (best_src st) |}
  else
    {| agg_score := agg; best_link := best_link st; best_src := best_src st |}.

(** The [try] around [_within_hours]: any exception passes the post over. *)
Definition in_window (src : source) (now : Z) (p : post) : bool :=
  match created_utc p with
  | None => false
  | Some created =>
      match _within_hours now created (lookback_hours src) with
      | inr b => b
      | inl _ => false
      end
  end.

Definition engagement_of (rt : runtime) (score com : float) : float :=
  let engagement :=
    (1 + log1p rt (fmax 0 score) + 0.5 * log1p rt (fmax 0 com))%float in
  fmin engagement 12.

(** [set(extract_tickers((title + "\n" + body).strip(), stopwords))] *)
Definition tickers_of (stopwords : gset string) (p : post) : gset string :=
  let title := default "" (title p) in
  let body := default "" (selftext p) in
  let txt := strip (title +:+ NL +:+ body) in
  list_to_set (extract_tickers txt stopwords).

(** The body of [for post in it]. *)
Definition process_post (rt : runtime) (stopwords : gset string) (src : source)
    (st : state) (seen : Z * post) : result state :=
  let '(now, p) := seen in
  if negb (in_window src now p) then ok st
  else
    let tickers := tickers_of stopwords p in
    if decide (tickers = ∅) then ok st
    else
      score ← float_of_int (default 0%Z (score p));
      com ← float_of_int (default 0%Z (num_comments p));
      let engagement := engagement_of rt score com in
      let url := REDDIT +:+ default "" (permalink p) in
      ok (set_fold (credit src engagement url) st tickers).

(** The body of [for s in subs]. *)
Definition process_source (rt : runtime) (stopwords : gset string)
    (st : state) (s : value) : result state :=
  src ← read_source rt s;
  match src with
  | None => ok st
  | Some src => for_each (process_post rt stopwords src) st (listing rt src)
  end.

(** [(a[1], a[0]) < (b[1], b[0])] *)
Definition key_lt (a b : string * float) : bool :=
  if (a.2 =? b.2)%float then Text.lt a.1 b.1 else (a.2 <? b.2)%float.

Definition ranked (st : state) (max_out : Z) : list (string * float) :=
  slice_to max_out (sorted_reverse key_lt (map_to_list (agg_score st))).

Definition make_item (rt : runtime) (st : state) (kv : string * float) : item :=
  {| ticker := kv.1;
     score_2dp := round2 rt kv.2;
     best_post := match best_link st !! kv.1 with Some b => Some b.2 | None => None end;
     best_src_name := best_src st !! kv.1 |}.

(** The tables after the loop over the sources, and the output cap. *)
Definition aggregate (rt : runtime) (cfg : gmap string value) (stopwords : gset string)
  : result (state * Z) :=
  let subs := get cfg "cross_subs" (VList []) in
  max_out ← max_out_of cfg;
  sources ← iter subs;
  st ← for_each (process_source rt stopwords) init sources;
  ok (st, max_out).

Definition build_cross_sub_radar (rt : runtime) (cfg : gmap string value)
    (stopwords : gset string) : result (list item) :=
  if negb (truthy (get cfg "cross_subs_enabled" (VBool false))) then ok []
  else
    '(st, max_out) ← aggregate rt cfg stopwords;
    ok (map (make_item rt st) (ranked st max_out)).

End Radar.

(** ** The statements of the design, in its own terms *)
Module Design.
Import Text TICKER_RE Filter.

(** One to five upper-case letters. *)
Definition letters_1_to_5 (l : list ascii) : bool :=
  (1 <=? length l)%nat && (length l <=? 5)%nat && forallb is_AZ l.

(** A raw structural match: an optional [$], then one to five upper-case
    letters. *)
Definition structural_chars (w : list ascii) : bool :=
  match w with
  | c :: l => if is_dollar c then letters_1_to_5 l else letters_1_to_5 w
  | [] => false
  end.

Definition structural (raw : string) : bool := structural_chars (chars raw).

Definition char_before (pre : string) : option ascii := last (chars pre).
Definition char_after (post : string) : option ascii := head (chars post).

(** [cls] describes the neighbouring character, when there is one. *)
Definition neighbour (cls : ascii -> bool) (o : option ascii) : bool :=
  match o with
  | Some c => cls c
  | None => false
  end.

Definition upper_or_digit (c : ascii) : bool := is_AZ c || is_09 c.
Definition upper_digit_or_dollar (c : ascii) : bool := is_AZ c || is_09 c || is_dollar c.

(** The boundary rule in the words of the design: no upper-case letter or
    digit right before, none right after. *)
Definition boundary_as_designed (pre post : string) : bool :=
  negb (neighbour upper_or_digit (char_before pre))
  && negb (neighbour upper_or_digit (char_after post)).

(** The boundary rule of the pattern: a [$] right before excludes as well. *)
Definition boundary_of_pattern (pre post : string) : bool :=
  negb (neighbour upper_digit_or_dollar (char_before pre))
  && negb (neighbour upper_or_digit (char_after post)).

(** "A match [raw] is emitted at position [i] of the upper-cased text exactly
    when it stands there and the boundary rule holds." *)
Definition emitted_iff (boundary : string -> string -> bool)
    (text : string) (i : nat) (raw : string) : Prop :=
  In (i, raw) (finditer (upper text)) <->
  exists pre post,
    upper text = pre +:+ raw +:+ post /\ len pre = i /\
    structural raw = true /\ boundary pre post = true.

(** "A token of the stopword set is never in the output." *)
Definition stopword_suppressed (text : string) (stopwords : gset string)
    (t : string) : Prop :=
  t ∈ stopwords -> ~ In t (extract_tickers text stopwords).

(** The evidence kept after one more observation [o]: replaced only by a
    strictly greater strength. *)
Definition keep_best {S R} (lt : S -> S -> bool) (prev : option (S * R))
    (o : S * R) : S * R :=
  match prev with
  | None => o
  | Some p => if lt p.1 o.1 then o else p
  end.

(** [e] is the first observation of [obs] that attains the maximum
    strength: none is stronger, and every earlier one is strictly weaker. *)
Definition first_maximum {S R} (lt : S -> S -> bool) (obs : list (S * R))
    (e : S * R) : Prop :=
  exists i,
    obs !! i = Some e /\
    (forall j o, obs !! j = Some o -> lt e.1 o.1 = false) /\
    (forall j o, j < i -> obs !! j = Some o -> lt o.1 e.1 = true).

(** The evidence a table should hold for a ticker with observations [obs]. *)
Definition evidence_of {S R} (lt : S -> S -> bool) (obs : list (S * R))
    (stored : option (S * R)) : Prop :=
  match obs with
  | [] => stored = None
  | _ :: _ => exists e, stored = Some e /\ first_maximum lt obs e
  end.

(** What one comment contributes to the evidence of ticker [t]: its score
    and its link, when the comment counts and mentions [t]. *)
Definition comment_observation (stopwords : gset string) (t : string)
    (c : Scoreboard.comment) : option (Z * string) :=
  match Scoreboard.body c, Scoreboard.author c with
  | Some b, Some _ =>
      if decide (t ∈ extract_tickers b stopwords)
      then Some (default 0%Z (Scoreboard.score c),
                 Scoreboard.REDDIT +:+ default "" (Scoreboard.permalink c))
      else None
  | _, _ => None
  end.

Definition comment_observations (stopwords : gset string)
    (top : list Scoreboard.comment) (t : string) : list (Z * string) :=
  omap (comment_observation stopwords t) top.

(** What one examined post of the source [src] contributes to the evidence
    of ticker [t]: the weighted engagement, the link of the post and the
    label of the source, when the post is in the window and mentions [t]. *)
Definition post_observation (rt : Radar.runtime) (stopwords : gset string)
    (t : string) (entry : Radar.source * (Z * Radar.post))
  : option (float * (string * string)) :=
  let '(src, (now, p)) := entry in
  if Radar.in_window src now p && bool_decide (t ∈ Radar.tickers_of stopwords p) then
    match Py.float_of_int (default 0%Z (Radar.score p)),
          Py.float_of_int (default 0%Z (Radar.num_comments p)) with
    | inr score, inr com =>
        Some ((Radar.weight src * Radar.engagement_of rt score com)%float,
              (Radar.REDDIT +:+ default "" (Radar.permalink p),
               "r/" +:+ Radar.name src))
    | _, _ => None
    end
  else None.

(** The posts one entry of [cross_subs] brings, in the order of the loop. *)
Definition source_feed (rt : Radar.runtime) (s : Py.value)
  : list (Radar.source * (Z * Radar.post)) :=
  match Radar.read_source rt s with
  | inr (Some src) => map (pair src) (Radar.listing rt src)
  | _ => []
  end.

Definition post_observations (rt : Radar.runtime) (cfg : gmap string Py.value)
    (stopwords : gset string) (t : string) : list (float * (string * string)) :=
  match Py.iter (Py.get cfg "cross_subs" (Py.VList [])) with
  | inr sources =>
      omap (post_observation rt stopwords t) (sources ≫= source_feed rt)
  | inl _ => []
  end.

(** The two evidence tables of the radar hold the record [stored]. *)
Definition radar_holds (st : Radar.state) (t : string)
    (stored : option (float * (string * string))) : Prop :=
  Radar.best_link st !! t = (fun e => (e.1, e.2.1)) <$> stored /\
  Radar.best_src st !! t = (fun e => e.2.2) <$> stored.

(** No total of the radar, and no strength of an observation, is a NaN. *)
Definition totals_are_numbers (st : Radar.state) : bool :=
  forallb (fun kv => negb (is_nan kv.2)) (map_to_list (Radar.agg_score st)).

Definition strengths_are_numbers (obs : list (float * (string * string))) : bool :=
  forallb (fun o => negb (is_nan o.1)) obs.


(** "Two entries with the same metric stand in the order [before] of their
    tickers." *)
Definition ties_in_order {A} (before : string -> string -> bool)
    (same : A -> A -> Prop) (name : A -> string) (out : list A) : Prop :=
  forall i j x y,
    i < j -> out !! i = Some x -> out !! j = Some y -> same x y ->
    before (name x) (name y) = true.

Definition ascending (a b : string) : bool := Text.lt a b.
Definition descending (a b : string) : bool := Text.lt b a.

Definition same_unique_authors (x y : Scoreboard.item) : Prop :=
  Scoreboard.unique_authors x = Scoreboard.unique_authors y.

(** The totals of two radar entries are equal as floats. *)
Definition same_total (st : Radar.state) (x y : Radar.item) : Prop :=
  exists s1 s2,
    Radar.agg_score st !! Radar.ticker x = Some s1 /\
    Radar.agg_score st !! Radar.ticker y = Some s2 /\
    (s1 =? s2)%float = true.

(** The outcome of the candidacy filter on one raw match. *)
Inductive verdict := Accept (ticker : string) | Reject.

(** What the program does with a raw match: [is_candidate_ticker], then the
    canonical form taken in [extract_tickers]. *)
Definition filter_verdict (raw : string) (stopwords : gset string) : verdict :=
  if is_candidate_ticker raw stopwords then Accept (canonical raw) else Reject.

(** The five rules of the design, applied in order. *)
Definition candidacy_rules (raw : string) (stopwords : gset string) : verdict :=
  let prefixed := starts_with_dollar raw in
  let token := if prefixed then tail raw else raw in
  if prefixed && (len token =? 1)%nat then Accept token
  else if (len token =? 1)%nat then Reject
  else if bool_decide (token ∈ stopwords) then Reject
  else if bool_decide (token ∈ REJECT) then Reject
  else Accept token.

End Design.

(** ** Notions used in the proofs *)
Module Facts.
Import Text TICKER_RE Design.

(** The character that precedes the position [length w] places further on. *)
Definition prev_after (prev : option ascii) (w : list ascii) : option ascii :=
  match last w with
  | Some c => Some c
  | None => prev
  end.

(** What [scan] emits from position [length pre0] on, in the text
    [pre0 ++ s]. *)
Definition stands_at (whole : list ascii) (from i : nat) (w : list ascii) : Prop :=
  exists pre post,
    whole = pre ++ w ++ post /\ length pre = i /\ from <= i /\
    structural_chars w = true /\
    lookbehind_ok (last pre) = true /\ lookahead_ok post = true.


(** The order of two keys of the ranking, as a proposition: numeric ranks
    compared lexicographically, then the tickers. *)
Definition lex3 (a b : Z * Z * Z) : Prop :=
  (a.1.1 < b.1.1 \/
   (a.1.1 = b.1.1 /\ (a.1.2 < b.1.2 \/ (a.1.2 = b.1.2 /\ a.2 < b.2))))%Z.

Definition key_below (a b : (Z * Z * Z) * string) : Prop :=
  lex3 a.1 b.1 \/ (a.1 = b.1 /\ Text.lt a.2 b.2 = true).

(** A rank for binary64 numbers that follows their order: the sign class,
    then exponent and mantissa. *)
Definition spec_rank (x : spec_float) : Z * Z * Z :=
  match x with
  | S754_zero _ => (0, 0, 0)
  | S754_infinity s => (if s then -2 else 2, 0, 0)
  | S754_nan => (0, 0, 0)
  | S754_finite s m e => if s then (-1, - e, - Z.pos m) else (1, e, Z.pos m)
  end%Z.

Definition float_rank (x : float) : Z * Z * Z := spec_rank (Prim2SF x).

Definition scoreboard_rank (kv : string * gset string) : (Z * Z * Z) * string :=
  ((Z.of_nat (size kv.2), 0, 0)%Z, kv.1).

Definition radar_rank (kv : string * float) : (Z * Z * Z) * string :=
  (float_rank kv.2, kv.1).

(** The evidence of one ticker, the two tables read together. *)
Definition evidence_view (st : Radar.state) (t : string)
  : option (float * string) * option string :=
  (Radar.best_link st !! t, Radar.best_src st !! t).

Definition unpack (stored : option (float * (string * string)))
  : option (float * string) * option string :=
  ((fun e => (e.1, e.2.1)) <$> stored, (fun e => e.2.2) <$> stored).

Definition credit_view (o : float * (string * string))
    (v : option (float * string) * option string)
  : option (float * string) * option string :=
  let better :=
    match v.1 with
    | None => true
    | Some prev => (prev.1 <? o.1)%float
    end in
  if better then (Some (o.1, o.2.1), Some o.2.2) else v.

End Facts.

(** ** Sample inputs *)
Module Examples.
Import Py.

Definition comment_a : Scoreboard.comment :=
  {| Scoreboard.body := Some "buying AMC and GME";
     Scoreboard.author := Some "Alice";
     Scoreboard.score := Some (-5)%Z;
     Scoreboard.permalink := Some "/r/sss/comments/1/a" |}.

Definition post_x : Radar.post :=
  {| Radar.created_utc := Some 1700000000000000%Z;
     Radar.title := Some "GME squeeze";
     Radar.selftext := Some "and AMC";
     Radar.score := Some 3%Z;
     Radar.num_comments := None;
     Radar.permalink := Some "/r/wsb/comments/2/x" |}.

(** A runtime whose [hot] listing of every subreddit is [post_x], examined
    one hour after it was created.  [log1p] is a stand-in. *)
Definition runtime_x : Radar.runtime :=
  {| Radar.log1p := fun x => x;
     Radar.round2 := fun x => x;
     Radar.float_of_str := fun _ => None;
     Radar.repr := fun _ => "None";
     Radar.hot := fun _ _ => [(1700003600000000%Z, post_x)];
     Radar.new := fun _ _ => [];
     Radar.top := fun _ _ => None |}.

Definition source_wsb : gmap string value :=
  {[ "name" := VStr "wsb"; "weight" := VInt 0;
     "limit_posts" := VInt 0; "lookback_hours" := VFloat 0 ]}.

Definition cfg_x : gmap string value :=
  {[ "cross_subs_enabled" := VBool true;
     "cross_max_tickers" := VInt 0;
     "cross_subs" := VList [VDict source_wsb] ]}.

(** [limit_posts] is not a number. *)
Definition cfg_malformed : gmap string value :=
  {[ "cross_subs_enabled" := VBool true;
     "cross_subs" :=
       VList [VDict {[ "name" := VStr "wsb"; "limit_posts" := VStr "abc" ]}] ]}.

Definition state_x : Radar.state :=
  match Radar.aggregate runtime_x cfg_x ∅ with
  | inr (st, _) => st
  | inl _ => Radar.init
  end.

End Examples.

(** ** [load_stopwords] and [_env_str] *)
Module Loader.
Import Text.

(** [_env_str(name, default)], [v] the value of [os.getenv(name, "")] *)
Definition _env_str (v dflt : string) : string :=
  if (len (strip v) =? 0)%nat then dflt else v.

(** [s.startswith("#")] *)
Definition starts_with_hash (s : string) : bool :=
  match s with
  | String c _ => (code c =? 35)%N
  | EmptyString => false
  end.

(** The body of [for line in f]. *)
Definition add_line (sw : gset string) (line : string) : gset string :=
  let t := upper (strip line) in
  if negb (len t =? 0)%nat && negb (starts_with_hash t) then {[ t ]} ∪ sw
  else sw.

(** [load_stopwords()]; [file] is the lines of [tickers_stopwords.txt],
    [None] when the file is not found. *)
Definition load_stopwords (file : option (list string)) : gset string :=
  match file with
  | Some lines => foldl add_line ∅ lines
  | None => ∅
  end.

End Loader.

(** ** [find_latest_daily_thread] *)
Module Thread.
Import Text Py.

(** A submission of the subreddit, as the search reads it.  [created_utc]
    is its instant in microseconds since the epoch. *)
Record submission := {
  created_utc : Z;
  title : string;
  permalink : string;
}.

(** [s.startswith(p)] *)
Definition startswith (s p : string) : bool := String.prefix p s.

(** The loop over [subreddit.new(limit=50)]: it ends at the first post
    older than [cutoff], and returns the first post whose title starts with
    the prefix. *)
Fixpoint first_with_prefix (cutoff : Z) (title_prefix : string)
    (posts : list submission) : option submission :=
  match posts with
  | [] => None
  | post :: rest =>
      if (created_utc post <? cutoff)%Z then None
      else if startswith (strip (title post)) title_prefix then Some post
      else first_with_prefix cutoff title_prefix rest
  end.

(** [find_latest_daily_thread(subreddit, title_prefix, lookback_hours)];
    [now] is the reading of the clock and [new] the listing
    [subreddit.new]. *)
Definition find_latest_daily_thread (now : Z) (new : Z -> list submission)
    (title_prefix : string) (lookback_hours : Z) : result (option submission) :=
  delta ← Radar.timedelta_hours lookback_hours;
  cutoff ← Radar.datetime_sub now delta;
  ok (first_with_prefix cutoff title_prefix (new 50%Z)).

End Thread.

(** ** [format_comment] *)
Module Report.
Import Text.

(** The dash of the report lines, U+2014, in UTF-8. *)
Definition EM_DASH : string :=
  String (ascii_of_N 226) (String (ascii_of_N 128) (String (ascii_of_N 148) EmptyString)).

(** [str(n)] for a natural number *)
Definition str_of_nat (n : nat) : string := NilEmpty.string_of_uint (Nat.to_uint n).

(** [bool(s)] for a string or [None] *)
Definition present (o : option string) : bool :=
  match o with
  | Some s => negb (len s =? 0)%nat
  | None => false
  end.

(** The body of [for i, it in enumerate(items, start=1)]. *)
Definition item_line (i : nat) (it : Scoreboard.item) : string :=
  let t := Scoreboard.ticker it in
  let n := Scoreboard.unique_authors it in
  let best := Scoreboard.best_comment it in
  if present best then
    str_of_nat i +:+ ". " +:+ t +:+ " " +:+ EM_DASH +:+ " " +:+ str_of_nat n
      +:+ " unique posters " +:+ EM_DASH +:+ " top comment: " +:+ default "" best
  else
    str_of_nat i +:+ ". " +:+ t +:+ " " +:+ EM_DASH +:+ " " +:+ str_of_nat n
      +:+ " unique posters".

(** The body of [for it in cross_radar]; [fmt] prints the score. *)
Definition radar_line (fmt : float -> string) (it : Radar.item) : string :=
  let t := Radar.ticker it in
  let sc := Radar.score_2dp it in
  let src := Radar.best_src_name it in
  let link := Radar.best_post it in
  let head := "- " +:+ t +:+ " " +:+ EM_DASH +:+ " radar score " +:+ fmt sc in
  if present link && present src then
    head +:+ " " +:+ EM_DASH +:+ " " +:+ default "" src +:+ ": " +:+ default "" link
  else if present link then
    head +:+ " " +:+ EM_DASH +:+ " " +:+ default "" link
  else head.

(** The list [lines] of [format_comment]; [ts] is the time stamp. *)
Definition format_lines (ts : string) (fmt : float -> string)
    (items : list Scoreboard.item) (hub_url : string)
    (cross_radar : list Radar.item) : list string :=
  [ "Daily Scoreboard (Text MVP)";
    "";
    "Top tickers by unique authors mentioning them in this Daily Scanner thread (not financial advice).";
    "Updated: " +:+ ts;
    "" ]
  ++ (if (length items =? 0)%nat then
        [ "No tickers detected yet. Post in the format: TICKER - catalyst - invalidation - 1 data point." ]
      else imap (fun i it => item_line (S i) it) items)
  ++ (if (length cross_radar =? 0)%nat then []
      else [ "Viral radar (cross-subreddit, weighted):" ]
           ++ map (radar_line fmt) cross_radar ++ [ "" ])
  ++ [ "Templates + rules (Hub): " +:+ hub_url ].

(** ["\n".join(lines)] *)
Fixpoint join_lines (lines : list string) : string :=
  match lines with
  | [] => ""
  | [l] => l
  | l :: rest => l +:+ String (ascii_of_N 10) (join_lines rest)
  end.

Definition format_comment (ts : string) (fmt : float -> string)
    (items : list Scoreboard.item) (hub_url : string)
    (cross_radar : list Radar.item) : string :=
  join_lines (format_lines ts fmt items hub_url cross_radar).

End Report.

(** ** Further notions of the design *)
Module Design2.
Import Text TICKER_RE Filter Design.

(** One to five upper-case letters, and no [$]. *)
Definition ticker_symbol (t : string) : bool := letters_1_to_5 (chars t).

(** The author a comment adds to the set of ticker [t]: lower-cased, when
    the comment counts and mentions [t]. *)
Definition comment_author (stopwords : gset string) (t : string)
    (c : Scoreboard.comment) : option string :=
  match Scoreboard.body c, Scoreboard.author c with
  | Some b, Some a =>
      if decide (t ∈ extract_tickers b stopwords) then Some (lower a) else None
  | _, _ => None
  end.

(** The number of distinct authors, up to case, of the counted comments
    that mention [t]. *)
Definition author_count (stopwords : gset string)
    (top : list Scoreboard.comment) (t : string) : nat :=
  size (list_to_set (omap (comment_author stopwords t) top) : gset string).

(** Some counted comment of the thread mentions [t]. *)
Definition mentioned (stopwords : gset string)
    (top : list Scoreboard.comment) (t : string) : Prop :=
  exists c b a,
    In c top /\ Scoreboard.body c = Some b /\ Scoreboard.author c = Some a /\
    In t (extract_tickers b stopwords).

(** A comment that the loop passes over. *)
Definition uncounted (c : Scoreboard.comment) : Prop :=
  Scoreboard.body c = None \/ Scoreboard.author c = None.

(** The number of distinct tickers of a thread. *)
Definition distinct_tickers (stopwords : gset string)
    (top : list Scoreboard.comment) : nat :=
  size (Scoreboard.ticker_authors (Scoreboard.tally stopwords top)).


(** The contributions of the observations, added up in their order from
    [0.0], as the loop does. *)
Definition total_of (obs : list (float * (string * string))) : float :=
  foldl (fun x o => (x + o.1)%float) 0%float obs.

(** A value of the configuration that no loop can run over. *)
Definition not_iterable (v : Py.value) : bool :=
  match v with
  | Py.VNone | Py.VBool _ | Py.VInt _ | Py.VFloat _ => true
  | _ => false
  end.

(** The title of a submission starts with the prefix, apart from white
    space around the title. *)
Definition titled (title_prefix : string) (p : Thread.submission) : bool :=
  Thread.startswith (strip (Thread.title p)) title_prefix.

End Design2.

(** ** More sample inputs *)
Module Examples2.
Import Py.

Definition comment_b : Scoreboard.comment :=
  {| Scoreboard.body := Some "GME again";
     Scoreboard.author := Some "ALICE";
     Scoreboard.score := Some 7%Z;
     Scoreboard.permalink := Some "/r/sss/comments/1/b" |}.

Definition comment_deleted : Scoreboard.comment :=
  {| Scoreboard.body := Some "GME";
     Scoreboard.author := None;
     Scoreboard.score := Some 50%Z;
     Scoreboard.permalink := Some "/r/sss/comments/1/c" |}.

Definition thread_chat : Thread.submission :=
  {| Thread.created_utc := 1700003000000000;
     Thread.title := "What are we buying";
     Thread.permalink := "/r/sss/comments/9" |}.

Definition thread_daily : Thread.submission :=
  {| Thread.created_utc := 1700000000000000;
     Thread.title := " Daily Squeeze Scanner + Discussion (Nov 14)";
     Thread.permalink := "/r/sss/comments/8" |}.

Definition thread_stale : Thread.submission :=
  {| Thread.created_utc := 1600000000000000;
     Thread.title := "Daily Squeeze Scanner + Discussion (old)";
     Thread.permalink := "/r/sss/comments/1" |}.

End Examples2.

(** * Properties of the recogniser *)
Section RecognizerFacts.
Import Text TICKER_RE Design Facts.

Lemma dollar_not_AZ c : is_dollar c = true -> is_AZ c = false.
Proof.
  unfold is_dollar, is_AZ. intros H%N.eqb_eq. rewrite H. reflexivity.
Qed.

Lemma letters_k_sound k s w rest :
  letters_k k s = Some (w, rest) ->
  s = w ++ rest /\ length w = k /\ forallb is_AZ w = true /\ lookahead_ok rest = true.
Proof.
  unfold letters_k. intros H.
  destruct (length (take k s) =? k)%nat eqn:Hk; [|discriminate].
  destruct (forallb is_AZ (take k s)) eqn:Hl; [|discriminate].
  destruct (lookahead_ok (drop k s)) eqn:Ha; [|discriminate].
  simpl in H. injection H as <- <-.
  apply Nat.eqb_eq in Hk. by rewrite take_drop.
Qed.

Lemma letters_1_5_sound s w rest :
  letters_1_5 s = Some (w, rest) ->
  s = w ++ rest /\ letters_1_to_5 w = true /\ lookahead_ok rest = true.
Proof.
  unfold letters_1_5, letters_1_to_5. intros H.
  repeat match type of H with
  | match letters_k ?k s with _ => _ end = _ =>
      let E := fresh "E" in destruct (letters_k k s) as [[??]|] eqn:E
  end;
  first [ injection H as -> -> | idtac ];
  match goal with
  | E : letters_k _ s = Some (w, rest) |- _ =>
      apply letters_k_sound in E as (-> & Hlen & -> & ->)
  | _ => apply letters_k_sound in H as (-> & Hlen & -> & ->)
  end; rewrite Hlen; done.
Qed.

(** The letters of a run followed by a character that ends it are found
    again by the greedy search. *)
Lemma letters_1_5_complete w post :
  letters_1_to_5 w = true -> lookahead_ok post = true ->
  letters_1_5 (w ++ post) = Some (w, post).
Proof.
  unfold letters_1_to_5. intros Hw Hpost.
  apply andb_true_iff in Hw as [Hlen Hall].
  apply andb_true_iff in Hlen as [H1 H5].
  apply Nat.leb_le in H1, H5.
  assert (Hhead : forall c post', post = c :: post' ->
            is_AZ c = false /\ is_09 c = false).
  { intros c post' ->. simpl in Hpost.
    destruct (is_AZ c), (is_09 c); done. }
  destruct w as [|a [|b [|c [|d [|e [|f w]]]]]]; simpl in H1, H5; try lia;
    simpl in Hall; repeat (apply andb_true_iff in Hall as [? Hall]);
    unfold letters_1_5, letters_k;
    destruct post as [|p1 [|p2 [|p3 [|p4 post]]]]; simpl;
    try (destruct (Hhead p1 _ eq_refl) as [-> ->]);
    repeat match goal with H : is_AZ _ = true |- _ => rewrite H; clear H end;
    simpl; rewrite ?andb_false_r; reflexivity.
Qed.

Lemma match_at_sound prev s w rest :
  match_at prev s = Some (w, rest) ->
  s = w ++ rest /\ structural_chars w = true /\
  lookbehind_ok prev = true /\ lookahead_ok rest = true.
Proof.
  unfold match_at. destruct (lookbehind_ok prev); [|discriminate].
  destruct s as [|c s']; [discriminate|].
  destruct (is_dollar c) eqn:Hc.
  - destruct (letters_1_5 s') as [[w' rest']|] eqn:E.
    + intros [= <- <-]. apply letters_1_5_sound in E as (-> & Hw & Hr).
      simpl. by rewrite Hc.
    + intros H. apply letters_1_5_sound in H as (Hs & Hw & _).
      destruct w as [|c' w']; [discriminate|]. injection Hs as <- _.
      unfold letters_1_to_5 in Hw. simpl in Hw.
      rewrite (dollar_not_AZ _ Hc) in Hw. simpl in Hw.
      by rewrite andb_false_r in Hw.
  - intros H. apply letters_1_5_sound in H as (Hs & Hw & Hr).
    destruct w as [|c' w']; [discriminate|]. injection Hs as <- Hs.
    simpl. by rewrite Hc, Hs.
Qed.

Lemma match_at_complete prev w post :
  structural_chars w = true -> lookbehind_ok prev = true ->
  lookahead_ok post = true ->
  match_at prev (w ++ post) = Some (w, post).
Proof.
  intros Hw Hp Hpost. unfold match_at. rewrite Hp.
  destruct w as [|c w']; [discriminate|]. simpl in Hw.
  change ((c :: w') ++ post) with (c :: (w' ++ post)). cbv beta iota.
  destruct (is_dollar c).
  - rewrite (letters_1_5_complete _ _ Hw Hpost). reflexivity.
  - change (c :: (w' ++ post)) with ((c :: w') ++ post).
    rewrite (letters_1_5_complete _ _ Hw Hpost). reflexivity.
Qed.

(** Every character of a structural match is a [$] or an upper-case letter,
    so no match can start right after one of them. *)
Lemma structural_chars_classes w :
  structural_chars w = true ->
  forallb (fun c => is_AZ c || is_dollar c) w = true.
Proof.
  intros Hw. destruct w as [|a w']; [done|]. simpl in Hw.
  assert (Hl : forall l, letters_1_to_5 l = true ->
            forallb (fun c => is_AZ c || is_dollar c) l = true).
  { intros l Hl. unfold letters_1_to_5 in Hl.
    apply andb_true_iff in Hl as [_ Hl].
    rewrite forallb_forall in *. intros x Hx. by rewrite (Hl x Hx). }
  destruct (is_dollar a) eqn:Ha.
  - simpl. rewrite Ha, orb_true_r. simpl. by apply Hl.
  - by apply Hl.
Qed.

Lemma structural_chars_block w c :
  structural_chars w = true -> c ∈ w -> lookbehind_ok (Some c) = false.
Proof.
  intros Hall%structural_chars_classes Hc.
  rewrite forallb_forall in Hall.
  apply list_elem_of_In in Hc. specialize (Hall c Hc). simpl.
  destruct (is_AZ c), (is_09 c), (is_dollar c); done.
Qed.

Lemma scan_skip w prev pos rest :
  scan (length w) prev pos (w ++ rest) =
  scan 0 (prev_after prev w) (pos + length w) rest.
Proof.
  revert prev pos. induction w as [|c w IH]; intros prev pos.
  - simpl. by rewrite Nat.add_0_r.
  - simpl. rewrite IH. unfold prev_after. rewrite last_cons.
    replace (S pos + length w) with (pos + S (length w)) by lia.
    by destruct (last w).
Qed.

Lemma scan_match prev pos s w rest :
  match_at prev s = Some (w, rest) ->
  scan 0 prev pos s = (pos, w) :: scan 0 (last w) (pos + length w) rest.
Proof.
  intros H. pose proof (match_at_sound _ _ _ _ H) as (-> & Hw & _).
  destruct w as [|c w']; [discriminate|].
  change ((c :: w') ++ rest) with (c :: (w' ++ rest)) in *.
  cbn [scan]. rewrite H. f_equal.
  cbn [length]. rewrite Nat.sub_1_r. cbn [Nat.pred]. rewrite scan_skip.
  unfold prev_after. rewrite last_cons.
  replace (S pos + length w') with (pos + S (length w')) by lia.
  by destruct (last w').
Qed.

Lemma scan_no_match prev pos c s :
  match_at prev (c :: s) = None ->
  scan 0 prev pos (c :: s) = scan 0 (Some c) (S pos) s.
Proof. intros H. cbn [scan]. by rewrite H. Qed.

Lemma scan_spec n : forall pre0 s i w,
  length s <= n ->
  In (i, w) (scan 0 (last pre0) (length pre0) s) <->
  stands_at (pre0 ++ s) (length pre0) i w.
Proof.
  induction n as [|n IH]; intros pre0 s i w Hn.
  { destruct s; [|simpl in Hn; lia]. simpl. split; [done|].
    intros (pre & post & Heq & Hi & Hle & Hw & _).
    apply (f_equal length) in Heq. rewrite app_nil_r, !length_app in Heq.
    destruct w; [done|]. simpl in Heq. lia. }
  destruct s as [|c s'].
  { simpl. split; [done|].
    intros (pre & post & Heq & Hi & Hle & Hw & _).
    apply (f_equal length) in Heq. rewrite app_nil_r, !length_app in Heq.
    destruct w; [done|]. simpl in Heq. lia. }
  simpl in Hn.
  destruct (match_at (last pre0) (c :: s')) as [[w0 rest]|] eqn:Hm.
  - rewrite (scan_match _ _ _ _ _ Hm).
    pose proof (match_at_sound _ _ _ _ Hm) as (Hs & Hw0 & Hb0 & Ha0).
    assert (Hne : w0 <> []) by (by destruct w0).
    assert (Hlast : last w0 = last (pre0 ++ w0)).
    { rewrite last_app. by destruct (last w0) eqn:E;
        [|apply last_None in E]. }
    assert (Hlen : length rest <= n).
    { apply (f_equal length) in Hs. rewrite length_app in Hs. simpl in Hs.
      destruct w0; [done|]. simpl in Hs. lia. }
    pose proof (IH (pre0 ++ w0) rest i w Hlen) as IH'.
    rewrite Hlast, <- length_app. simpl. rewrite IH'. clear IH'.
    rewrite Hs. split.
    + intros [[= <- <-]|(pre & post & Heq & Hi & Hle & Hrest)].
      * exists pre0, rest. done.
      * exists pre, post. rewrite <- (assoc_L (++)) in Heq.
        rewrite length_app in Hle. split_and!; try tauto; lia.
    + intros (pre & post & Heq & Hi & Hle & Hw & Hb & Ha).
      destruct (decide (length pre = length pre0)) as [Heq0|Hne0].
      * left. apply app_inj_1 in Heq as [-> Heq]; [|done].
        pose proof (match_at_complete _ _ _ Hw Hb Ha) as Hm'.
        rewrite <- Heq, <- Hs, Hm in Hm'. injection Hm' as -> _. by rewrite Hi.
      * destruct (decide (length pre < length pre0 + length w0)) as [Hin|Hout].
        -- exfalso.
           assert (Hc : exists c', last pre = Some c' /\ c' ∈ w0).
           { rewrite last_lookup.
             assert (Hlk : pre !! pred (length pre) =
                           (pre ++ w ++ post) !! pred (length pre)).
             { rewrite lookup_app_l; [done|lia]. }
             rewrite Hlk, <- Heq.
             rewrite lookup_app_r by lia. rewrite lookup_app_l by lia.
             destruct (w0 !! (pred (length pre) - length pre0)) as [c'|] eqn:E.
             - exists c'. split; [done|]. by eapply list_elem_of_lookup_2.
             - apply lookup_ge_None in E. lia. }
           destruct Hc as (c' & Hc1 & Hc2).
           rewrite Hc1, (structural_chars_block _ _ Hw0 Hc2) in Hb. done.
        -- right. exists pre, post. rewrite <- (assoc_L (++)), length_app.
           split_and!; try done; lia.
  - rewrite (scan_no_match _ _ _ _ Hm).
    assert (Hlast : Some c = last (pre0 ++ [c])) by (by rewrite last_snoc).
    assert (Hl : S (length pre0) = length (pre0 ++ [c])).
    { rewrite length_app. simpl. lia. }
    pose proof (IH (pre0 ++ [c]) s' i w ltac:(lia)) as IH'.
    rewrite Hlast, Hl, IH'. clear IH'.
    rewrite <- (assoc_L (++)). simpl. rewrite <- Hl. split.
    + intros (pre & post & Heq & Hi & Hle & Hrest).
      exists pre, post. split_and!; try tauto; lia.
    + intros (pre & post & Heq & Hi & Hle & Hw & Hb & Ha).
      exists pre, post. split_and!; try done.
      destruct (decide (length pre = length pre0)) as [Heq0|]; [|lia].
      apply app_inj_1 in Heq as [-> Heq]; [|done].
      pose proof (match_at_complete _ _ _ Hw Hb Ha) as Hm'.
      rewrite <- Heq, Hm in Hm'. done.
Qed.

End RecognizerFacts.

(** * From lists of characters back to strings *)
Section StringFacts.
Import Text TICKER_RE Filter Design.

Lemma chars_str l : chars (str l) = l.
Proof. apply list_ascii_of_string_of_list_ascii. Qed.

Lemma str_chars s : str (chars s) = s.
Proof. apply string_of_list_ascii_of_string. Qed.

Lemma chars_inj s1 s2 : chars s1 = chars s2 -> s1 = s2.
Proof. intros H. by rewrite <- (str_chars s1), H, str_chars. Qed.

Lemma chars_app s1 s2 : chars (s1 +:+ s2) = chars s1 ++ chars s2.
Proof. induction s1 as [|c s1 IH]; simpl; [done|]. by f_equal. Qed.

Lemma len_chars s : len s = length (chars s).
Proof. induction s as [|c s IH]; simpl; [done|]. by f_equal. Qed.

Lemma upper_char_fixed c :
  is_AZ c || is_dollar c = true -> upper_char c = c.
Proof.
  unfold upper_char, is_az, is_AZ, is_dollar. intros H.
  destruct ((97 <=? code c)%N && (code c <=? 122)%N) eqn:E; [|reflexivity].
  exfalso. apply andb_true_iff in E as [E1 E2].
  apply N.leb_le in E1, E2.
  apply orb_true_iff in H as [H|H].
  - apply andb_true_iff in H as [_ H]. apply N.leb_le in H. lia.
  - apply N.eqb_eq in H. lia.
Qed.

(** A raw structural match is already in upper case. *)
Lemma structural_upper raw : structural raw = true -> upper raw = raw.
Proof.
  unfold structural, upper. intros H%structural_chars_classes.
  rewrite <- (str_chars raw) at 2. f_equal.
  induction (chars raw) as [|c l IH]; [done|].
  simpl in H. apply andb_true_iff in H as [Hc Hl].
  simpl. by rewrite (upper_char_fixed _ Hc), (IH Hl).
Qed.

Lemma boundary_of_pattern_chars pre post :
  boundary_of_pattern pre post =
  lookbehind_ok (last (chars pre)) && lookahead_ok (chars post).
Proof.
  unfold boundary_of_pattern, char_before, char_after, lookbehind_ok,
    lookahead_ok, neighbour, upper_digit_or_dollar, upper_or_digit.
  destruct (last (chars pre)), (chars post); reflexivity.
Qed.

(** [finditer] emits exactly the structural occurrences that satisfy the
    two look-arounds of the pattern. *)
Lemma finditer_spec text i raw :
  In (i, raw) (finditer text) <->
  exists pre post,
    text = pre +:+ raw +:+ post /\ len pre = i /\
    structural raw = true /\ boundary_of_pattern pre post = true.
Proof.
  unfold finditer. rewrite in_map_iff.
  pose proof (scan_spec (length (chars text)) [] (chars text)) as Hs.
  simpl in Hs. split.
  - intros ([j w] & [= <- <-] & Hin). simpl in *.
    apply Hs in Hin as (pre & post & Heq & Hi & _ & Hw & Hb & Ha); [|done].
    exists (str pre), (str post). split_and!.
    + apply chars_inj. by rewrite !chars_app, !chars_str.
    + by rewrite len_chars, chars_str.
    + unfold structural. by rewrite chars_str.
    + rewrite boundary_of_pattern_chars, !chars_str, Hb, Ha. done.
  - intros (pre & post & -> & Hi & Hw & Hb).
    rewrite boundary_of_pattern_chars in Hb.
    apply andb_true_iff in Hb as [Hb Ha].
    exists (i, chars raw). split; [simpl; by rewrite str_chars|].
    apply Hs; [done|]. exists (chars pre), (chars post).
    rewrite !chars_app, <- len_chars. split_and!; try done. lia.
Qed.

Lemma finditer_structural text i raw :
  In (i, raw) (finditer text) -> structural raw = true.
Proof. intros H%finditer_spec. by destruct H as (? & ? & ? & ? & ? & ?). Qed.

(** One ticker of the output of [extract_tickers] and the match it is
    the canonical form of. *)
Lemma extract_tickers_inv text stopwords t :
  In t (extract_tickers text stopwords) ->
  exists i raw,
    In (i, raw) (finditer (upper text)) /\
    is_candidate_ticker raw stopwords = true /\ t = canonical raw.
Proof.
  unfold extract_tickers. destruct (len text =? 0)%nat; [done|].
  rewrite in_flat_map. intros ([i raw] & Hin & Ht). simpl in Ht.
  destruct (is_candidate_ticker raw stopwords) eqn:E; [|done].
  destruct Ht as [<-|[]]. by exists i, raw.
Qed.

(** The filter on a raw structural match, case by case. *)
Lemma is_candidate_ticker_structural raw stopwords :
  structural raw = true ->
  is_candidate_ticker raw stopwords =
  if starts_with_dollar raw && (len (tail raw) =? 1)%nat then true
  else negb (len (canonical raw) =? 1)%nat
       && negb (bool_decide (canonical raw ∈ stopwords))
       && negb (bool_decide (canonical raw ∈ REJECT)).
Proof.
  intros Hs. unfold is_candidate_ticker, canonical.
  rewrite (structural_upper _ Hs).
  destruct (starts_with_dollar raw); simpl.
  - destruct (len (tail raw) =? 1)%nat; [done|]. simpl.
    by destruct (bool_decide _), (bool_decide _).
  - destruct (len raw =? 1)%nat; [done|]. simpl.
    by destruct (bool_decide _), (bool_decide _).
Qed.

End StringFacts.

(** * The recogniser and the filter: the claims *)
Section RecognizerClaims.
Import Text TICKER_RE Filter Design.

(** C2: on the text ["NASA1 AAPL, $F said TSLA2day"] the recogniser finds
    the three raw matches [AAPL], [$F] and [SAID] (nothing inside [NASA1] or
    [TSLA2day]), and with a stopword set that lists [SAID] and does not list
    [AAPL], [extract_tickers] yields exactly [AAPL] and [F]. *)
Theorem boundary_example (stopwords : gset string) :
  "SAID" ∈ stopwords -> "AAPL" ∉ stopwords ->
  finditer (upper "NASA1 AAPL, $F said TSLA2day")
    = [(6, "AAPL"); (12, "$F"); (15, "SAID")]
  /\ extract_tickers "NASA1 AAPL, $F said TSLA2day" stopwords = ["AAPL"; "F"].
Proof.
  intros Hsaid Haapl.
  assert (Hm : finditer (upper "NASA1 AAPL, $F said TSLA2day")
               = [(6, "AAPL"); (12, "$F"); (15, "SAID")]) by (vm_compute; done).
  split; [exact Hm|].
  unfold extract_tickers. rewrite Hm.
  change (len "NASA1 AAPL, $F said TSLA2day" =? 0)%nat with false.
  cbn [flat_map fst snd app].
  rewrite !is_candidate_ticker_structural by (vm_compute; done).
  change (canonical "AAPL") with "AAPL".
  change (canonical "$F") with "F".
  change (canonical "SAID") with "SAID".
  rewrite (bool_decide_eq_false_2 _ Haapl), (bool_decide_eq_true_2 _ Hsaid).
  vm_compute. reflexivity.
Qed.

Lemma boundary_example_witness :
  extract_tickers "NASA1 AAPL, $F said TSLA2day" {[ "SAID"; "THE" ]}
    = ["AAPL"; "F"].
Proof.
  refine (proj2 (boundary_example {[ "SAID"; "THE" ]} _ _)).
  - vm_compute. done.
  - apply (bool_decide_eq_false_1 ("AAPL" ∈ ({[ "SAID"; "THE" ]} : gset string))).
    vm_compute. reflexivity.
Defined.

(** The stopword set decides about [SAID]: with no stopwords it is a third
    ticker of the same text. *)
Lemma boundary_example_no_stopwords :
  extract_tickers "NASA1 AAPL, $F said TSLA2day" ∅ = ["AAPL"; "F"; "SAID"].
Proof. vm_compute. reflexivity. Qed.

(** C3 (as amended): a raw match is emitted at a position of the upper-cased
    text if and only if it stands there as an optional [$] followed by one to
    five upper-case letters, is not immediately preceded by an upper-case
    letter, a digit or a [$], and is not immediately followed by an
    upper-case letter or a digit. *)
Theorem recognizer_emits_iff_pattern_boundary (text : string) (i : nat) (raw : string) :
  emitted_iff boundary_of_pattern text i raw.
Proof. unfold emitted_iff. apply finditer_spec. Qed.

(** C3 as stated fails: in ["$$F"] the letter [F] at position 2 has no
    upper-case letter or digit on either side, and is not emitted, because
    the [$] before it suppresses the match. *)
Lemma recognizer_dollar_before_suppresses :
  ~ emitted_iff boundary_as_designed "$$F" 2 "F".
Proof.
  unfold emitted_iff. intros [_ H].
  assert (Hin : In (2, "F") (finditer (upper "$$F"))).
  { apply H. exists "$$", "". vm_compute. done. }
  vm_compute in Hin. done.
Qed.

(** C4 (as amended): a token of the stopword set whose length is not 1 is
    never in the output of [extract_tickers], however the text capitalises
    it and whether or not it carries a [$]. *)
Theorem stopword_never_emitted (text : string) (stopwords : gset string) (t : string) :
  len t <> 1 -> stopword_suppressed text stopwords t.
Proof.
  intros Hlen Hsw Hin.
  apply extract_tickers_inv in Hin as (i & raw & Hraw & Hc & ->).
  apply finditer_structural in Hraw.
  rewrite (is_candidate_ticker_structural _ _ Hraw) in Hc.
  unfold canonical in *.
  destruct (starts_with_dollar raw); simpl in Hc.
  - destruct (len (tail raw) =? 1)%nat eqn:E.
    + by apply Nat.eqb_eq in E.
    + simpl in Hc. rewrite (bool_decide_eq_true_2 _ Hsw) in Hc. done.
  - rewrite (bool_decide_eq_true_2 _ Hsw), andb_false_r in Hc. done.
Qed.

Lemma stopword_never_emitted_witness :
  stopword_suppressed "the THE $The AMC" {[ "THE" ]} "THE".
Proof.
  apply (stopword_never_emitted "the THE $The AMC" {[ "THE" ]} "THE").
  vm_compute. lia.
Defined.

(** C4 as stated fails: the single letter [A] is in the stopword set and
    [$a] still yields the ticker [A]. *)
Lemma stopword_single_letter_dollar :
  ~ stopword_suppressed "$a" {[ "A" ]} "A".
Proof.
  unfold stopword_suppressed. intros H. apply H.
  - vm_compute. done.
  - vm_compute. by left.
Qed.

(** C5: on every raw structural match the program decides as the five
    ordered rules of the design do, and an accepted match yields its
    canonical form without the prefix. *)
Theorem filter_follows_rules (raw : string) (stopwords : gset string) :
  structural raw = true ->
  filter_verdict raw stopwords = candidacy_rules raw stopwords.
Proof.
  intros Hs. unfold filter_verdict, candidacy_rules.
  rewrite (is_candidate_ticker_structural _ _ Hs). unfold canonical.
  destruct (starts_with_dollar raw); simpl.
  - destruct (len (tail raw) =? 1)%nat; [done|]. simpl.
    by destruct (bool_decide _), (bool_decide _).
  - destruct (len raw =? 1)%nat; [done|]. simpl.
    by destruct (bool_decide _), (bool_decide _).
Qed.

Lemma filter_follows_rules_witness :
  filter_verdict "$F" {[ "F"; "THE" ]} = candidacy_rules "$F" {[ "F"; "THE" ]}
  /\ candidacy_rules "$F" {[ "F"; "THE" ]} = Accept "F".
Proof.
  split.
  - apply (filter_follows_rules "$F" {[ "F"; "THE" ]}). reflexivity.
  - vm_compute. reflexivity.
Defined.

End RecognizerClaims.

(** * Orders: strings and binary64 numbers *)
Section OrderFacts.
Import Text Design Facts.

Lemma string_compare_refl s : String.compare s s = Eq.
Proof.
  induction s as [|c s IH]; simpl; [done|].
  unfold Ascii.compare. by rewrite N.compare_refl.
Qed.

Lemma string_compare_trans a : forall b c,
  String.compare a b = Lt -> String.compare b c = Lt -> String.compare a c = Lt.
Proof.
  induction a as [|x a IH]; intros [|y b] [|z c]; simpl; try done.
  unfold Ascii.compare.
  destruct (N.compare_spec (N_of_ascii x) (N_of_ascii y)) as [Hxy|Hxy|Hxy];
    destruct (N.compare_spec (N_of_ascii y) (N_of_ascii z)) as [Hyz|Hyz|Hyz];
    try done; intros H1 H2.
  - rewrite <- Hyz, Hxy, N.compare_refl. by eapply IH.
  - rewrite Hxy. by apply N.compare_lt_iff in Hyz as ->.
  - rewrite <- Hyz. by apply N.compare_lt_iff in Hxy as ->.
  - assert (H : (N_of_ascii x < N_of_ascii z)%N) by lia.
    by apply N.compare_lt_iff in H as ->.
Qed.

Lemma lt_irrefl s : Text.lt s s = false.
Proof. unfold Text.lt, String.ltb. by rewrite string_compare_refl. Qed.

Lemma lt_trans a b c :
  Text.lt a b = true -> Text.lt b c = true -> Text.lt a c = true.
Proof.
  unfold Text.lt, String.ltb. intros H1 H2.
  destruct (String.compare a b) eqn:E1; try done.
  destruct (String.compare b c) eqn:E2; try done.
  by rewrite (string_compare_trans _ _ _ E1 E2).
Qed.

Lemma lt_total a b : Text.lt a b = false -> a <> b -> Text.lt b a = true.
Proof.
  unfold Text.lt, String.ltb. intros H Hne.
  rewrite (String.compare_antisym b a).
  destruct (String.compare a b) eqn:E; try done.
  by apply String.compare_eq_iff in E.
Qed.

Lemma lex3_irrefl a : ~ lex3 a a.
Proof. unfold lex3. lia. Qed.

Lemma lex3_trans a b c : lex3 a b -> lex3 b c -> lex3 a c.
Proof. unfold lex3. lia. Qed.

Lemma lex3_total a b : lex3 a b \/ a = b \/ lex3 b a.
Proof.
  destruct a as [[a1 a2] a3], b as [[b1 b2] b3]. unfold lex3. simpl.
  destruct (Z.lt_trichotomy a1 b1) as [?|[->|?]]; [lia| |lia].
  destruct (Z.lt_trichotomy a2 b2) as [?|[->|?]]; [lia| |lia].
  destruct (Z.lt_trichotomy a3 b3) as [?|[->|?]]; [lia| |lia].
  right. by left.
Qed.

Lemma key_below_irrefl a : ~ key_below a a.
Proof.
  intros [H|[_ H]]; [by apply lex3_irrefl in H|]. by rewrite lt_irrefl in H.
Qed.

Lemma key_below_trans a b c : key_below a b -> key_below b c -> key_below a c.
Proof.
  intros [H1|[E1 H1]] [H2|[E2 H2]].
  - left. by eapply lex3_trans.
  - left. by rewrite <- E2.
  - left. by rewrite E1.
  - right. split; [congruence|]. by eapply lt_trans.
Qed.

Lemma key_below_total a b : key_below a b \/ a = b \/ key_below b a.
Proof.
  destruct a as [ra sa], b as [rb sb]. unfold key_below. simpl.
  destruct (lex3_total ra rb) as [?|[->|?]]; [tauto| |tauto].
  destruct (Text.lt sa sb) eqn:E; [tauto|].
  destruct (decide (sa = sb)) as [->|Hne]; [tauto|].
  right. right. right. split; [done|]. by apply lt_total.
Qed.

Lemma key_below_asym a b : key_below a b -> ~ key_below b a.
Proof.
  intros H1 H2. by apply (key_below_irrefl a), (key_below_trans a b a).
Qed.

Lemma key_below_negtrans a b c :
  ~ key_below a b -> ~ key_below b c -> ~ key_below a c.
Proof.
  intros H1 H2 H3.
  destruct (key_below_total a b) as [?|[->|Hba]]; [done|done|].
  apply H2. by eapply key_below_trans.
Qed.

(** The order of binary64 numbers that are not NaN is the order of their
    ranks. *)
Lemma SFltb_rank x y :
  x <> S754_nan -> y <> S754_nan ->
  (SFltb x y = true <-> lex3 (spec_rank x) (spec_rank y)).
Proof.
  intros Hx Hy. unfold SFltb, SFcompare, lex3.
  destruct x as [sx|sx| |sx mx ex], y as [sy|sy| |sy my ey]; try done;
    try (destruct sx); try (destruct sy); simpl;
    try (split; [done|lia]); try (split; [lia|done]);
    try (split; [intros _; lia|done]).
  all: change (Pos.compare_cont Eq mx my) with (Pos.compare mx my).
  all: destruct (Z.compare_spec ex ey); destruct (Pos.compare_spec mx my);
    simpl; split; try done; try (intros _; lia); try lia.
Qed.

Lemma SFeqb_rank x y :
  x <> S754_nan -> y <> S754_nan ->
  (SFeqb x y = true <-> spec_rank x = spec_rank y).
Proof.
  intros Hx Hy. unfold SFeqb, SFcompare.
  destruct x as [sx|sx| |sx mx ex], y as [sy|sy| |sy my ey]; try done;
    try (destruct sx); try (destruct sy); simpl;
    try (split; [done|intros [=]; lia]); try (split; done).
  all: change (Pos.compare_cont Eq mx my) with (Pos.compare mx my).
  all: destruct (Z.compare_spec ex ey); destruct (Pos.compare_spec mx my);
    simpl; split; try done; try (intros [=]; lia); try (intros _; f_equal; [f_equal|]; lia).
Qed.

Lemma is_nan_spec x : is_nan x = false <-> Prim2SF x <> S754_nan.
Proof.
  unfold is_nan. rewrite FloatAxioms.eqb_spec, negb_false_iff. split.
  - intros H E. by rewrite E in H.
  - intros H. by apply SFeqb_rank.
Qed.

Lemma float_ltb_rank x y :
  is_nan x = false -> is_nan y = false ->
  ((x <? y)%float = true <-> lex3 (float_rank x) (float_rank y)).
Proof.
  intros Hx%is_nan_spec Hy%is_nan_spec. rewrite FloatAxioms.ltb_spec.
  by apply SFltb_rank.
Qed.

Lemma float_eqb_rank x y :
  is_nan x = false -> is_nan y = false ->
  ((x =? y)%float = true <-> float_rank x = float_rank y).
Proof.
  intros Hx%is_nan_spec Hy%is_nan_spec. rewrite FloatAxioms.eqb_spec.
  by apply SFeqb_rank.
Qed.

End OrderFacts.

(** * [sorted], slices, and folds over tables *)
Section SortedFacts.
Import Py.
Context {A : Type} (lt : A -> A -> bool).

Lemma insert_desc_perm x l : insert_desc lt x l ≡ₚ x :: l.
Proof.
  induction l as [|y l IH]; simpl; [done|].
  destruct (lt x y); [|done]. rewrite IH. apply Permutation_swap.
Qed.

Lemma sorted_reverse_perm l : sorted_reverse lt l ≡ₚ l.
Proof.
  induction l as [|x l IH]; simpl; [done|].
  by rewrite insert_desc_perm, IH.
Qed.

(** Where the comparison is a strict weak order on the elements at hand,
    the result is in descending order. *)
Context (P : A -> Prop).
Hypothesis lt_asym : forall x y, P x -> P y -> lt x y = true -> lt y x = false.
Hypothesis lt_negtrans : forall x y z, P x -> P y -> P z ->
  lt x y = false -> lt y z = false -> lt x z = false.

Lemma insert_desc_sorted x l :
  P x -> Forall P l ->
  StronglySorted (fun a b => lt a b = false) l ->
  StronglySorted (fun a b => lt a b = false) (insert_desc lt x l).
Proof.
  intros Hx Hl Hs. induction Hs as [|y l Hs IH Hy]; simpl.
  { repeat constructor. }
  apply Forall_cons in Hl as [HPy HPl].
  destruct (lt x y) eqn:E.
  - constructor; [by apply IH|].
    rewrite insert_desc_perm. constructor; [|done]. by apply lt_asym.
  - constructor; [by constructor|]. constructor; [done|].
    rewrite Forall_forall in *. intros z Hz.
    apply (lt_negtrans x y z); auto.
Qed.

Lemma sorted_reverse_sorted l :
  Forall P l -> StronglySorted (fun a b => lt a b = false) (sorted_reverse lt l).
Proof.
  induction l as [|x l IH]; simpl; intros Hl; [constructor|].
  apply Forall_cons in Hl as [Hx Hl].
  apply insert_desc_sorted; [done| |by apply IH].
  by rewrite sorted_reverse_perm.
Qed.

(** Where, moreover, no two distinct elements compare equal, the result
    does not depend on the order in which the elements are given: the order
    in which a dictionary enumerates its items is immaterial. *)
Lemma sorted_unique (l1 l2 : list A) :
  (forall x y, x ∈ l1 -> y ∈ l1 -> lt x y = false -> lt y x = false -> x = y) ->
  StronglySorted (fun a b => lt a b = false) l1 ->
  StronglySorted (fun a b => lt a b = false) l2 ->
  l1 ≡ₚ l2 -> l1 = l2.
Proof.
  intros Hanti Hs1. revert l2. induction Hs1 as [|x l1 Hs1 IH Hx]; intros l2 Hs2 Hp.
  { by apply Permutation_nil_l in Hp. }
  destruct Hs2 as [|y l2 Hs2 Hy].
  { by apply Permutation_nil_r in Hp. }
  assert (Heq : x = y).
  { assert (Hxin : x ∈ y :: l2) by (rewrite <- Hp; by left).
    apply elem_of_cons in Hxin as [?|Hxin]; [done|].
    assert (Hyin : y ∈ x :: l1) by (rewrite Hp; by left).
    apply elem_of_cons in Hyin as [?|Hyin]; [done|].
    rewrite Forall_forall in Hx, Hy.
    apply Hanti; [by left|by right|by apply Hx|by apply Hy]. }
  subst y. f_equal. apply IH; [|done|by eapply Permutation_cons_inv].
  intros a b Ha Hb. apply Hanti; by right.
Qed.

Lemma sorted_reverse_order_independent (l1 l2 : list A) :
  Forall P l1 ->
  (forall x y, x ∈ l1 -> y ∈ l1 -> lt x y = false -> lt y x = false -> x = y) ->
  l1 ≡ₚ l2 ->
  sorted_reverse lt l1 = sorted_reverse lt l2.
Proof.
  intros HP Hanti Hp. apply sorted_unique.
  - intros x y Hx Hy. rewrite sorted_reverse_perm in Hx, Hy. by apply Hanti.
  - by apply sorted_reverse_sorted.
  - apply sorted_reverse_sorted. by rewrite <- Hp.
  - by rewrite !sorted_reverse_perm.
Qed.

End SortedFacts.

Section ListFacts.
Import Py.
Context {A : Type}.

Lemma StronglySorted_lookup (R : A -> A -> Prop) l i j x y :
  StronglySorted R l -> i < j -> l !! i = Some x -> l !! j = Some y -> R x y.
Proof.
  intros Hs. revert i j. induction Hs as [|z l Hs IH Hz]; intros i j Hij Hi Hj.
  { done. }
  destruct j as [|j]; [lia|]. destruct i as [|i]; simpl in *.
  - injection Hi as ->. rewrite Forall_forall in Hz. apply Hz.
    by eapply list_elem_of_lookup_2.
  - apply (IH i j); [lia|done..].
Qed.

Lemma slice_to_lookup (n : Z) (l : list A) i x :
  slice_to n l !! i = Some x -> l !! i = Some x.
Proof.
  unfold slice_to. destruct (0 <=? n)%Z;
    intros H%lookup_take_Some; tauto.
Qed.


End ListFacts.

(** Folding over the tickers of one record touches each ticker once. *)
Section FoldFacts.
Context {St V : Type} (view : St -> string -> V) (f : string -> St -> St)
  (upd : V -> V).
Hypothesis f_same : forall t st, view (f t st) t = upd (view st t).
Hypothesis f_other : forall t t' st, t <> t' -> view (f t st) t' = view st t'.

Lemma foldr_view l : NoDup l -> forall st t,
  view (foldr f st l) t = if decide (t ∈ l) then upd (view st t) else view st t.
Proof.
  induction 1 as [|x l Hx Hl IH]; intros st t; cbn [foldr].
  { case_decide; [set_solver|done]. }
  destruct (decide (x = t)) as [->|Hne].
  - rewrite f_same, IH.
    destruct (decide (t ∈ l)); [done|].
    by rewrite decide_True by (apply elem_of_cons; by left).
  - rewrite f_other, IH by done.
    destruct (decide (t ∈ l)).
    + by rewrite decide_True by (apply elem_of_cons; by right).
    + rewrite decide_False; [done|]. intros [?|?]%elem_of_cons; congruence.
Qed.

Lemma set_fold_view (X : gset string) st t :
  view (set_fold f st X) t = if decide (t ∈ X) then upd (view st t) else view st t.
Proof.
  unfold set_fold. simpl. rewrite foldr_view by apply NoDup_elements.
  destruct (decide (t ∈ X)).
  - by rewrite decide_True by (by apply elem_of_elements).
  - rewrite decide_False; [done|]. by rewrite elem_of_elements.
Qed.

End FoldFacts.

(** The evidence after a sequence of observations is the first maximum. *)
Section BestFacts.
Import Design.
Context {S R : Type} (lt : S -> S -> bool) (P : S -> Prop).
Hypothesis lt_irrefl : forall x, P x -> lt x x = false.
Hypothesis lt_trans : forall x y z, P x -> P y -> P z ->
  lt x y = true -> lt y z = true -> lt x z = true.
Hypothesis lt_cotrans : forall x y z, P x -> P y -> P z ->
  lt x z = true -> lt x y = true \/ lt y z = true.

Lemma fold_best_snoc (obs : list (S * R)) o :
  foldl (fun acc o => Some (keep_best lt acc o)) None (obs ++ [o]) =
  Some (keep_best lt (foldl (fun acc o => Some (keep_best lt acc o)) None obs) o).
Proof. by rewrite foldl_app. Qed.

Lemma fold_best_spec (obs : list (S * R)) :
  Forall (fun o => P o.1) obs ->
  evidence_of lt obs (foldl (fun acc o => Some (keep_best lt acc o)) None obs).
Proof.
  induction obs as [|o obs IH] using rev_ind; intros HP; [done|].
  apply Forall_app in HP as [HP Ho]. apply Forall_inv in Ho. simpl in Ho.
  specialize (IH HP). rewrite fold_best_snoc.
  remember (foldl (fun acc o => Some (keep_best lt acc o)) None obs) as acc
    eqn:Hacc. clear Hacc.
  assert (Hev : exists e,
    Some (keep_best lt acc o) = Some e /\ first_maximum lt (obs ++ [o]) e).
  { unfold evidence_of in IH. destruct obs as [|o0 obs'].
    - subst acc. simpl. exists o. split; [done|]. exists 0. split_and!; [done| |lia].
      intros j o' Hj. apply list_lookup_singleton_Some in Hj as [_ <-].
      by apply lt_irrefl.
    - remember (o0 :: obs') as l eqn:Hl. clear Hl.
      destruct IH as (e & -> & i & Hi & Ha & Hb). simpl.
      assert (HPe : P e.1).
      { rewrite Forall_forall in HP. apply (HP e).
        by eapply list_elem_of_lookup_2. }
      assert (HPl : forall j o', l !! j = Some o' -> P o'.1).
      { intros j o' Hj. rewrite Forall_forall in HP. apply (HP o').
        by eapply list_elem_of_lookup_2. }
      destruct (lt e.1 o.1) eqn:E.
      + exists o. split; [done|]. exists (length l). split_and!.
        * by rewrite list_lookup_middle.
        * intros j o' Hj. apply lookup_app_Some in Hj as [Hj|[_ Hj]].
          -- destruct (lt o.1 o'.1) eqn:E'; [|done].
             rewrite <- (Ha j o' Hj). symmetry.
             apply (lt_trans _ o.1); eauto.
          -- apply list_lookup_singleton_Some in Hj as [_ <-].
             by apply lt_irrefl.
        * intros j o' Hlt Hj. rewrite lookup_app_l in Hj by done.
          destruct (lt_cotrans e.1 o'.1 o.1) as [H|H]; eauto.
          by rewrite (Ha j o' Hj) in H.
      + exists e. split; [done|]. exists i. split_and!.
        * by apply lookup_app_l_Some.
        * intros j o' Hj. apply lookup_app_Some in Hj as [Hj|[_ Hj]].
          -- by eapply Ha.
          -- by apply list_lookup_singleton_Some in Hj as [_ <-].
        * intros j o' Hlt Hj. apply (Hb j); [done|].
          apply lookup_lt_Some in Hi.
          rewrite lookup_app_l in Hj by lia. done. }
  unfold evidence_of. destruct (obs ++ [o]) eqn:E; [|exact Hev].
  by destruct obs.
Qed.

End BestFacts.

(** * The single-thread aggregator *)
Section ScoreboardFacts.
Import Text Filter Py Design Facts.
Import Scoreboard.

Lemma note_best_same a s l t st :
  ticker_best_comment (note a s l t st) !! t
  = Some (keep_best Z.ltb (ticker_best_comment st !! t) (s, l)).
Proof.
  unfold note, keep_best. simpl.
  destruct (ticker_best_comment st !! t) as [p|] eqn:E.
  - simpl. destruct (p.1 <? s)%Z; [by rewrite lookup_insert_eq|done].
  - by rewrite lookup_insert_eq.
Qed.

Lemma note_best_other a s l t t' st :
  t <> t' ->
  ticker_best_comment (note a s l t st) !! t' = ticker_best_comment st !! t'.
Proof.
  intros Hne. unfold note. simpl.
  destruct (ticker_best_comment st !! t) as [p|].
  - destruct (p.1 <? s)%Z; [by rewrite lookup_insert_ne|done].
  - by rewrite lookup_insert_ne.
Qed.

Lemma note_authors_same a s l t st :
  ticker_authors (note a s l t st) !! t
  = Some (default ∅ (ticker_authors st !! t) ∪ {[ a ]}).
Proof. unfold note. simpl. by rewrite lookup_insert_eq. Qed.

Lemma note_authors_other a s l t t' st :
  t <> t' ->
  ticker_authors (note a s l t st) !! t' = ticker_authors st !! t'.
Proof. intros Hne. unfold note. simpl. by rewrite lookup_insert_ne. Qed.

(** One comment, seen from one ticker. *)
Lemma step_best stopwords st c t :
  ticker_best_comment (step stopwords st c) !! t =
  match comment_observation stopwords t c with
  | Some o => Some (keep_best Z.ltb (ticker_best_comment st !! t) o)
  | None => ticker_best_comment st !! t
  end.
Proof.
  unfold step, comment_observation.
  destruct (body c) as [b|]; [|done]. destruct (author c) as [a|]; [|done].
  destruct (decide (list_to_set (extract_tickers b stopwords) = (∅ : gset string)))
    as [He|He].
  - rewrite decide_False; [done|]. set_solver.
  - rewrite (set_fold_view (fun st t => ticker_best_comment st !! t) _
      (fun v => Some (keep_best Z.ltb v
         (default 0%Z (score c), REDDIT +:+ default "" (permalink c))))).
    + destruct (decide (t ∈ extract_tickers b stopwords)).
      * by rewrite decide_True by set_solver.
      * by rewrite decide_False by set_solver.
    + intros. apply note_best_same.
    + intros. by apply note_best_other.
Qed.

Lemma step_authors stopwords st c t :
  is_Some (ticker_authors (step stopwords st c) !! t) <->
  is_Some (ticker_authors st !! t) \/ is_Some (comment_observation stopwords t c).
Proof.
  unfold step, comment_observation.
  destruct (body c) as [b|]; [|by split; [left|intros [?|[? [=]]]]].
  destruct (author c) as [a|]; [|by split; [left|intros [?|[? [=]]]]].
  destruct (decide (list_to_set (extract_tickers b stopwords) = (∅ : gset string)))
    as [He|He].
  - rewrite decide_False by set_solver.
    by split; [left|intros [?|[? [=]]]].
  - rewrite (set_fold_view (fun st t => ticker_authors st !! t) _
      (fun v => Some (default ∅ v ∪ {[ lower a ]}))).
    + destruct (decide (t ∈ extract_tickers b stopwords)).
      * rewrite decide_True by set_solver. split; [by right|by eexists].
      * rewrite decide_False by set_solver.
        by split; [left|intros [?|[? [=]]]].
    + intros. apply note_authors_same.
    + intros. by apply note_authors_other.
Qed.

Lemma foldl_step_best stopwords top : forall st t,
  ticker_best_comment (foldl (step stopwords) st top) !! t =
  foldl (fun acc o => Some (keep_best Z.ltb acc o))
    (ticker_best_comment st !! t) (comment_observations stopwords top t).
Proof.
  induction top as [|c top IH]; intros st t; simpl; [done|].
  rewrite IH, step_best. unfold comment_observations. simpl.
  by destruct (comment_observation stopwords t c).
Qed.

Lemma foldl_step_authors stopwords top : forall st t,
  is_Some (ticker_authors (foldl (step stopwords) st top) !! t) <->
  is_Some (ticker_authors st !! t) \/ comment_observations stopwords top t <> [].
Proof.
  induction top as [|c top IH]; intros st t; simpl.
  { split; [by left|]. by intros [?|?]. }
  rewrite IH, step_authors. unfold comment_observations. simpl.
  destruct (comment_observation stopwords t c) as [o|].
  - split; [by right|]. intros _. left. right. by eexists.
  - split; [intros [[?|[? [=]]]|?]|intros [?|?]]; tauto.
Qed.

(** The evidence table after the loop. *)
Lemma tally_best stopwords top t :
  evidence_of Z.ltb (comment_observations stopwords top t)
    (ticker_best_comment (tally stopwords top) !! t).
Proof.
  unfold tally. rewrite foldl_step_best. change (ticker_best_comment init !! t)
    with (@None (Z * string)).
  apply (fold_best_spec Z.ltb (fun _ => True)).
  - intros. apply Z.ltb_irrefl.
  - intros x y z _ _ _ H1%Z.ltb_lt H2%Z.ltb_lt. apply Z.ltb_lt. lia.
  - intros x y z _ _ _ H%Z.ltb_lt. rewrite !Z.ltb_lt. lia.
  - by apply Forall_forall.
Qed.

Lemma tally_authors stopwords top t :
  is_Some (ticker_authors (tally stopwords top) !! t) <->
  comment_observations stopwords top t <> [].
Proof.
  unfold tally. rewrite foldl_step_authors. split; [|by right].
  intros [[? H]|?]; [|done]. unfold init in H. simpl in H.
  by rewrite lookup_empty in H.
Qed.

Lemma comment_observations_inv stopwords top t o i :
  comment_observations stopwords top t !! i = Some o ->
  exists c, In c top /\ comment_observation stopwords t c = Some o.
Proof.
  intros H%list_elem_of_lookup_2. unfold comment_observations in H.
  apply list_elem_of_omap in H as (c & Hc & Ho).
  exists c. split; [by apply list_elem_of_In|done].
Qed.

(** Every ranked ticker has evidence: the link of a comment that counts
    and mentions it. *)
Lemma ranked_evidence stopwords top max_tickers kv :
  In kv (ranked (tally stopwords top) max_tickers) ->
  exists c b a sc,
    In c top /\ body c = Some b /\ author c = Some a /\
    kv.1 ∈ extract_tickers b stopwords /\
    ticker_best_comment (tally stopwords top) !! kv.1
      = Some (sc, REDDIT +:+ default "" (permalink c)).
Proof.
  intros Hin. apply list_elem_of_In, list_elem_of_lookup in Hin as [i Hi].
  unfold ranked in Hi. apply slice_to_lookup in Hi.
  apply list_elem_of_lookup_2 in Hi.
  rewrite sorted_reverse_perm in Hi. destruct kv as [t s].
  apply elem_of_map_to_list in Hi. simpl.
  assert (Hs : is_Some (ticker_authors (tally stopwords top) !! t)) by eauto.
  apply tally_authors in Hs.
  pose proof (tally_best stopwords top t) as He. unfold evidence_of in He.
  destruct (comment_observations stopwords top t) as [|o0 obs] eqn:E; [done|].
  destruct He as (e & He & j & Hj & _). rewrite <- E in Hj.
  apply comment_observations_inv in Hj as (c & Hc & Ho).
  unfold comment_observation in Ho.
  destruct (body c) as [b|] eqn:Eb; [|done].
  destruct (author c) as [a|] eqn:Ea; [|done].
  destruct (decide (t ∈ extract_tickers b stopwords)); [|done].
  injection Ho as <-. exists c, b, a, (default 0%Z (score c)). by rewrite He.
Qed.

Lemma build_scoreboard_evidence top stopwords max_tickers it :
  In it (build_scoreboard top stopwords max_tickers) ->
  exists c b a,
    In c top /\ body c = Some b /\ author c = Some a /\
    In (ticker it) (extract_tickers b stopwords) /\
    best_comment it = Some (REDDIT +:+ default "" (permalink c)).
Proof.
  unfold build_scoreboard. rewrite in_map_iff. intros (kv & <- & Hkv).
  apply ranked_evidence in Hkv as (c & b & a & sc & Hc & Hb & Ha & Ht & He).
  exists c, b, a. unfold make_item. simpl. rewrite He. simpl.
  split_and!; try done. by apply list_elem_of_In.
Qed.

(** The order of the keys of [sorted] is a strict weak order. *)
Lemma key_lt_rank a b :
  key_lt a b = true <-> key_below (scoreboard_rank a) (scoreboard_rank b).
Proof.
  unfold key_lt, key_below, scoreboard_rank, lex3. simpl.
  destruct (size a.2 =? size b.2)%nat eqn:E.
  - apply Nat.eqb_eq in E. rewrite E. split.
    + intros H. right. done.
    + intros [H|[_ H]]; [lia|done].
  - apply Nat.eqb_neq in E. rewrite Nat.ltb_lt. split.
    + intros H. left. lia.
    + intros [H|[[= H] _]]; lia.
Qed.

Lemma key_lt_asym a b : key_lt a b = true -> key_lt b a = false.
Proof.
  intros H%key_lt_rank. apply not_true_iff_false. intros H'%key_lt_rank.
  by eapply key_below_asym.
Qed.

Lemma key_lt_negtrans a b c :
  key_lt a b = false -> key_lt b c = false -> key_lt a c = false.
Proof.
  rewrite <- !not_true_iff_false, !key_lt_rank. apply key_below_negtrans.
Qed.

(** The ranking does not depend on the order in which the dictionary
    enumerates its items. *)
Lemma ranking_order_independent st (items : list (string * gset string)) :
  items ≡ₚ map_to_list (ticker_authors st) ->
  sorted_reverse key_lt items
  = sorted_reverse key_lt (map_to_list (ticker_authors st)).
Proof.
  intros Hp. symmetry.
  apply (sorted_reverse_order_independent key_lt (fun _ => True)); [| | | |done].
  - intros ?? _ _. apply key_lt_asym.
  - intros ??? _ _ _. apply key_lt_negtrans.
  - by apply Forall_forall.
  - intros [t1 s1] [t2 s2] H1%elem_of_map_to_list H2%elem_of_map_to_list.
    rewrite <- !not_true_iff_false, !key_lt_rank. intros Hab Hba.
    destruct (key_below_total (scoreboard_rank (t1, s1)) (scoreboard_rank (t2, s2)))
      as [?|[[= _ ->]|?]]; [done| |done].
    rewrite H1 in H2. by injection H2 as ->.
Qed.

Lemma ranked_descending st max_tickers i j a b :
  i < j ->
  ranked st max_tickers !! i = Some a -> ranked st max_tickers !! j = Some b ->
  key_lt a b = false /\ a.1 <> b.1.
Proof.
  intros Hij Hi Hj. unfold ranked in *.
  apply slice_to_lookup in Hi, Hj. split.
  - eapply (StronglySorted_lookup (fun a b => key_lt a b = false)); [|done..].
    apply (sorted_reverse_sorted key_lt (fun _ => True)).
    + intros ?? _ _. apply key_lt_asym.
    + intros ??? _ _ _. apply key_lt_negtrans.
    + by apply Forall_forall.
  - assert (Hnd : NoDup (sorted_reverse key_lt (map_to_list (ticker_authors st))).*1).
    { rewrite sorted_reverse_perm. apply NoDup_fst_map_to_list. }
    intros Heq.
    assert (i = j); [|lia].
    eapply (NoDup_lookup _ i j a.1 Hnd); rewrite list_lookup_fmap.
    + by rewrite Hi.
    + by rewrite Hj, Heq.
Qed.

Lemma build_scoreboard_ties top stopwords max_tickers :
  ties_in_order descending same_unique_authors ticker
    (build_scoreboard top stopwords max_tickers).
Proof.
  intros i j x y Hij Hx Hy Hsame. unfold build_scoreboard in *.
  rewrite list_lookup_fmap in Hx, Hy.
  destruct (ranked _ _ !! i) as [a|] eqn:Ea; [|done].
  destruct (ranked _ _ !! j) as [b|] eqn:Eb; [|done].
  injection Hx as <-. injection Hy as <-.
  destruct (ranked_descending _ _ _ _ _ _ Hij Ea Eb) as [Hlt Hne].
  unfold same_unique_authors, make_item in Hsame. simpl in *.
  unfold key_lt in Hlt. rewrite Hsame, Nat.eqb_refl in Hlt.
  unfold descending. by apply lt_total.
Qed.

End ScoreboardFacts.

(** * The cross-subreddit aggregator *)
Section RadarFacts.
Import Text Filter Py Design Facts.
Import Radar.

Lemma float_lt_irrefl x : is_nan x = false -> (x <? x)%float = false.
Proof.
  intros Hx. apply not_true_iff_false. rewrite float_ltb_rank by done.
  apply lex3_irrefl.
Qed.

Lemma float_lt_trans x y z :
  is_nan x = false -> is_nan y = false -> is_nan z = false ->
  (x <? y)%float = true -> (y <? z)%float = true -> (x <? z)%float = true.
Proof.
  intros Hx Hy Hz. rewrite !float_ltb_rank by done. apply lex3_trans.
Qed.

Lemma float_lt_cotrans x y z :
  is_nan x = false -> is_nan y = false -> is_nan z = false ->
  (x <? z)%float = true -> (x <? y)%float = true \/ (y <? z)%float = true.
Proof.
  intros Hx Hy Hz. rewrite !float_ltb_rank by done. intros H.
  destruct (lex3_total (float_rank x) (float_rank y)) as [?|[E|?]].
  - by left.
  - right. by rewrite <- E.
  - right. by eapply lex3_trans.
Qed.

Lemma credit_view_unpack o acc :
  credit_view o (unpack acc) = unpack (Some (keep_best PrimFloat.ltb acc o)).
Proof.
  unfold credit_view, unpack, keep_best. destruct acc as [e|]; simpl; [|done].
  by destruct (e.1 <? o.1)%float.
Qed.

Lemma credit_same src engagement url t st :
  evidence_view (credit src engagement url t st) t =
  credit_view ((weight src * engagement)%float, (url, "r/" +:+ name src))
    (evidence_view st t).
Proof.
  unfold credit, credit_view, evidence_view. simpl.
  destruct (best_link st !! t) as [prev|] eqn:E; simpl.
  - destruct (prev.1 <? weight src * engagement)%float; simpl; [|by rewrite E].
    by rewrite !lookup_insert_eq.
  - by rewrite !lookup_insert_eq.
Qed.

Lemma credit_other src engagement url t t' st :
  t <> t' ->
  evidence_view (credit src engagement url t st) t' = evidence_view st t'.
Proof.
  intros Hne. unfold credit, evidence_view.
  destruct (match best_link st !! t with
            | Some prev => (prev.1 <? weight src * engagement)%float
            | None => true
            end); simpl; [|done].
  by rewrite !lookup_insert_ne.
Qed.

(** One post, seen from one ticker. *)
Lemma process_post_view rt stopwords src st seen st' t :
  process_post rt stopwords src st seen = inr st' ->
  evidence_view st' t =
  match post_observation rt stopwords t (src, seen) with
  | Some o => credit_view o (evidence_view st t)
  | None => evidence_view st t
  end.
Proof.
  destruct seen as [now p]. unfold process_post, post_observation.
  destruct (in_window src now p); simpl; [|by intros [= <-]].
  destruct (decide (tickers_of stopwords p = ∅)) as [He|He].
  { intros [= <-]. rewrite bool_decide_eq_false_2; [done|]. set_solver. }
  destruct (float_of_int (default 0%Z (score p))) as [e|sc]; [done|].
  destruct (float_of_int (default 0%Z (num_comments p))) as [e|com]; [done|].
  simpl. intros [= <-].
  rewrite (set_fold_view evidence_view _
    (credit_view ((weight src * engagement_of rt sc com)%float,
                  (REDDIT +:+ default "" (permalink p), "r/" +:+ name src)))).
  - destruct (decide (t ∈ tickers_of stopwords p)).
    + by rewrite bool_decide_eq_true_2.
    + by rewrite bool_decide_eq_false_2.
  - intros. apply credit_same.
  - intros. by apply credit_other.
Qed.

Lemma radar_holds_view st t stored :
  radar_holds st t stored <-> evidence_view st t = unpack stored.
Proof.
  unfold radar_holds, evidence_view, unpack. split.
  - by intros [-> ->].
  - by intros [= -> ->].
Qed.

(** One post replaces the evidence of a ticker only by a strictly greater
    contribution. *)
Lemma process_post_holds rt stopwords src st seen st' t stored :
  process_post rt stopwords src st seen = inr st' ->
  radar_holds st t stored ->
  radar_holds st' t
    match post_observation rt stopwords t (src, seen) with
    | Some o => Some (keep_best PrimFloat.ltb stored o)
    | None => stored
    end.
Proof.
  intros Hp Hs%radar_holds_view. apply radar_holds_view.
  rewrite (process_post_view _ _ _ _ _ _ t Hp).
  destruct (post_observation rt stopwords t (src, seen)); [|done].
  by rewrite Hs, credit_view_unpack.
Qed.

#[local] Arguments post_observation : simpl never.
#[local] Arguments source_feed : simpl never.

Lemma for_each_posts_view rt stopwords src t l : forall st st' acc,
  for_each (process_post rt stopwords src) st l = inr st' ->
  evidence_view st t = unpack acc ->
  evidence_view st' t =
  unpack (foldl (fun acc o => Some (keep_best PrimFloat.ltb acc o)) acc
            (omap (post_observation rt stopwords t) (map (pair src) l))).
Proof.
  induction l as [|seen l IH]; intros st st' acc; simpl.
  { by intros [= <-]. }
  destruct (process_post rt stopwords src st seen) as [e|st1] eqn:E; [done|].
  simpl. intros Hl Hv.
  pose proof (process_post_view _ _ _ _ _ _ t E) as Hv1.
  destruct (post_observation rt stopwords t (src, seen)) as [o|]; simpl.
  - apply (IH st1); [done|]. by rewrite Hv1, Hv, credit_view_unpack.
  - apply (IH st1); [done|]. by rewrite Hv1.
Qed.

Lemma process_source_view rt stopwords t s st st' acc :
  process_source rt stopwords st s = inr st' ->
  evidence_view st t = unpack acc ->
  evidence_view st' t =
  unpack (foldl (fun acc o => Some (keep_best PrimFloat.ltb acc o)) acc
            (omap (post_observation rt stopwords t) (source_feed rt s))).
Proof.
  unfold process_source, source_feed.
  destruct (read_source rt s) as [e|[src|]]; simpl; [done| |].
  - apply for_each_posts_view.
  - by intros [= <-].
Qed.

Lemma for_each_sources_view rt stopwords t l : forall st st' acc,
  for_each (process_source rt stopwords) st l = inr st' ->
  evidence_view st t = unpack acc ->
  evidence_view st' t =
  unpack (foldl (fun acc o => Some (keep_best PrimFloat.ltb acc o)) acc
            (omap (post_observation rt stopwords t) (l ≫= source_feed rt))).
Proof.
  induction l as [|s l IH]; intros st st' acc; simpl.
  { by intros [= <-]. }
  destruct (process_source rt stopwords st s) as [e|st1] eqn:E; [done|].
  simpl. intros Hl Hv. rewrite omap_app, foldl_app.
  apply (IH st1); [done|]. by eapply process_source_view.
Qed.

(** The evidence tables after the loops. *)
Lemma aggregate_evidence rt cfg stopwords st max_out t :
  aggregate rt cfg stopwords = inr (st, max_out) ->
  Forall (fun o => is_nan o.1 = false) (post_observations rt cfg stopwords t) ->
  exists stored,
    radar_holds st t stored /\
    evidence_of PrimFloat.ltb (post_observations rt cfg stopwords t) stored.
Proof.
  unfold aggregate, post_observations.
  destruct (max_out_of cfg) as [e|m]; [done|]. simpl.
  destruct (iter (get cfg "cross_subs" (VList []))) as [e|sources]; [done|].
  simpl.
  destruct (for_each (process_source rt stopwords) init sources)
    as [e|st1] eqn:E; [done|].
  simpl. intros [= <- <-] Hnan.
  pose proof (for_each_sources_view rt stopwords t sources init st1 None E eq_refl)
    as Hv.
  eexists. split.
  - unfold radar_holds. unfold evidence_view, unpack in Hv.
    injection Hv as H1 H2. split; [exact H1|exact H2].
  - apply (fold_best_spec PrimFloat.ltb (fun x => is_nan x = false)); [| | |done].
    + apply float_lt_irrefl.
    + apply float_lt_trans.
    + apply float_lt_cotrans.
Qed.

(** The order of the keys of [sorted], apart from NaN. *)
Lemma radar_key_lt_rank a b :
  is_nan a.2 = false -> is_nan b.2 = false ->
  (key_lt a b = true <-> key_below (radar_rank a) (radar_rank b)).
Proof.
  intros Ha Hb. unfold key_lt, key_below, radar_rank. simpl.
  destruct (a.2 =? b.2)%float eqn:E.
  - apply float_eqb_rank in E; [|done..]. rewrite E. split.
    + intros H. by right.
    + intros [H|[_ H]]; [by apply lex3_irrefl in H|done].
  - rewrite float_ltb_rank by done. split.
    + intros H. by left.
    + intros [H|[H _]]; [done|].
      apply float_eqb_rank in H; [|done..]. congruence.
Qed.

Lemma radar_key_lt_asym a b :
  is_nan a.2 = false -> is_nan b.2 = false ->
  key_lt a b = true -> key_lt b a = false.
Proof.
  intros Ha Hb H%radar_key_lt_rank; [|done..].
  apply not_true_iff_false. intros H'%radar_key_lt_rank; [|done..].
  by eapply key_below_asym.
Qed.

Lemma radar_key_lt_negtrans a b c :
  is_nan a.2 = false -> is_nan b.2 = false -> is_nan c.2 = false ->
  key_lt a b = false -> key_lt b c = false -> key_lt a c = false.
Proof.
  intros Ha Hb Hc.
  rewrite <- !not_true_iff_false, !radar_key_lt_rank by done.
  apply key_below_negtrans.
Qed.

Lemma agg_score_items_numbers st :
  map_Forall (fun _ s => is_nan s = false) (agg_score st) ->
  Forall (fun kv : string * float => is_nan kv.2 = false)
    (map_to_list (agg_score st)).
Proof.
  intros Hnan. apply Forall_forall. intros [t s] Hts%elem_of_map_to_list.
  by apply (Hnan t s).
Qed.

(** Apart from NaN, the ranking does not depend on the order in which the
    dictionary enumerates its items. *)
Lemma radar_ranking_order_independent st (items : list (string * float)) :
  map_Forall (fun _ s => is_nan s = false) (agg_score st) ->
  items ≡ₚ map_to_list (agg_score st) ->
  sorted_reverse key_lt items
  = sorted_reverse key_lt (map_to_list (agg_score st)).
Proof.
  intros Hnan Hp. symmetry.
  pose proof (agg_score_items_numbers st Hnan) as HP.
  apply (sorted_reverse_order_independent key_lt
           (fun kv : string * float => is_nan kv.2 = false)); [| |done| |done].
  - apply radar_key_lt_asym.
  - apply radar_key_lt_negtrans.
  - intros [t1 s1] [t2 s2] H1 H2.
    assert (N1 : is_nan s1 = false).
    { rewrite Forall_forall in HP. by apply (HP (t1, s1)). }
    assert (N2 : is_nan s2 = false).
    { rewrite Forall_forall in HP. by apply (HP (t2, s2)). }
    apply elem_of_map_to_list in H1, H2.
    rewrite <- !not_true_iff_false, !radar_key_lt_rank by done. intros Hab Hba.
    destruct (key_below_total (radar_rank (t1, s1)) (radar_rank (t2, s2)))
      as [?|[[= _ ->]|?]]; [done| |done].
    rewrite H1 in H2. by injection H2 as ->.
Qed.

Lemma radar_ranked_descending st max_out i j a b :
  map_Forall (fun _ s => is_nan s = false) (agg_score st) ->
  i < j ->
  ranked st max_out !! i = Some a -> ranked st max_out !! j = Some b ->
  key_lt a b = false /\ a.1 <> b.1 /\
  agg_score st !! a.1 = Some a.2 /\ agg_score st !! b.1 = Some b.2.
Proof.
  intros Hnan Hij Hi Hj. unfold ranked in *.
  apply slice_to_lookup in Hi, Hj.
  pose proof (agg_score_items_numbers st Hnan) as HP.
  assert (Hmem : forall k kv,
    sorted_reverse key_lt (map_to_list (agg_score st)) !! k = Some kv ->
    agg_score st !! kv.1 = Some kv.2).
  { intros k [t s] Hk%list_elem_of_lookup_2.
    rewrite sorted_reverse_perm in Hk. by apply elem_of_map_to_list in Hk. }
  split_and!; [| |by eapply Hmem..].
  - eapply (StronglySorted_lookup (fun a b => key_lt a b = false)); [|done..].
    apply (sorted_reverse_sorted key_lt
             (fun kv : string * float => is_nan kv.2 = false)); [| |done].
    + apply radar_key_lt_asym.
    + apply radar_key_lt_negtrans.
  - assert (Hnd : NoDup (sorted_reverse key_lt (map_to_list (agg_score st))).*1).
    { rewrite sorted_reverse_perm. apply NoDup_fst_map_to_list. }
    intros Heq.
    assert (i = j); [|lia].
    eapply (NoDup_lookup _ i j a.1 Hnd); rewrite list_lookup_fmap.
    + by rewrite Hi.
    + by rewrite Hj, Heq.
Qed.

Lemma radar_ties rt st max_out :
  map_Forall (fun _ s => is_nan s = false) (agg_score st) ->
  ties_in_order descending (same_total st) ticker
    (map (make_item rt st) (ranked st max_out)).
Proof.
  intros Hnan i j x y Hij Hx Hy (s1 & s2 & H1 & H2 & Heq).
  rewrite list_lookup_fmap in Hx, Hy.
  destruct (ranked _ _ !! i) as [a|] eqn:Ea; [|done].
  destruct (ranked _ _ !! j) as [b|] eqn:Eb; [|done].
  injection Hx as <-. injection Hy as <-. simpl in *.
  destruct (radar_ranked_descending _ _ _ _ _ _ Hnan Hij Ea Eb)
    as (Hlt & Hne & Ha & Hb).
  rewrite Ha in H1. rewrite Hb in H2. injection H1 as <-. injection H2 as <-.
  unfold key_lt in Hlt. rewrite Heq in Hlt.
  unfold descending. by apply lt_total.
Qed.

End RadarFacts.

(** * The aggregators: the claims *)
Section AggregatorClaims.
Import Text Filter Py Design Facts Examples.

Lemma totals_are_numbers_spec st :
  totals_are_numbers st = true ->
  map_Forall (fun _ s => is_nan s = false) (Radar.agg_score st).
Proof.
  unfold totals_are_numbers. rewrite forallb_forall. intros H t s Hts.
  apply negb_true_iff, (H (t, s)), list_elem_of_In.
  by apply elem_of_map_to_list.
Qed.

Lemma strengths_are_numbers_spec obs :
  strengths_are_numbers obs = true ->
  Forall (fun o : float * (string * string) => is_nan o.1 = false) obs.
Proof.
  unfold strengths_are_numbers. rewrite forallb_forall, Forall_forall.
  intros H o Ho%list_elem_of_In. by apply negb_true_iff, H.
Qed.

(** C1 (as amended): in the output of either aggregator, two tickers with
    equal ranking metric (equal number of unique authors; equal total score,
    no total being a NaN) stand in descending lexicographic order: the
    greater ticker comes first. *)
Theorem ties_are_descending
    (top : list Scoreboard.comment) (stopwords : gset string) (max_tickers : Z)
    (rt : Radar.runtime) (cfg : gmap string value) (st : Radar.state)
    (max_out : Z) (out : list Radar.item) :
  Radar.aggregate rt cfg stopwords = inr (st, max_out) ->
  Radar.build_cross_sub_radar rt cfg stopwords = inr out ->
  totals_are_numbers st = true ->
  ties_in_order descending same_unique_authors Scoreboard.ticker
    (Scoreboard.build_scoreboard top stopwords max_tickers)
  /\ ties_in_order descending (same_total st) Radar.ticker out.
Proof.
  intros Hagg Hout Hnan%totals_are_numbers_spec. split.
  - apply build_scoreboard_ties.
  - unfold Radar.build_cross_sub_radar in Hout.
    destruct (negb (truthy (get cfg "cross_subs_enabled" (VBool false)))).
    + injection Hout as <-. by intros i j x y _ Hx.
    + rewrite Hagg in Hout. simpl in Hout. injection Hout as <-.
      by apply radar_ties.
Qed.

Lemma ties_are_descending_witness :
  ties_in_order descending same_unique_authors Scoreboard.ticker
    (Scoreboard.build_scoreboard [comment_a] ∅ 12)
  /\ ties_in_order descending (same_total state_x) Radar.ticker
       (map (Radar.make_item runtime_x state_x) (Radar.ranked state_x 8)).
Proof.
  apply (ties_are_descending [comment_a] ∅ 12 runtime_x cfg_x state_x 8).
  - vm_compute. reflexivity.
  - vm_compute. reflexivity.
  - vm_compute. reflexivity.
Defined.

(** C1 as stated fails: one comment mentions [AMC] and [GME], both have one
    author, and [GME] comes before [AMC]. *)
Lemma ties_are_not_ascending :
  ~ ties_in_order ascending same_unique_authors Scoreboard.ticker
      (Scoreboard.build_scoreboard
         [ {| Scoreboard.body := Some "AMC GME";
              Scoreboard.author := Some "alice";
              Scoreboard.score := Some 1%Z;
              Scoreboard.permalink := Some "/c" |} ] ∅ 12).
Proof.
  intros H.
  specialize (H 0 1
    {| Scoreboard.ticker := "GME"; Scoreboard.unique_authors := 1;
       Scoreboard.best_comment := Some "https://www.reddit.com/c" |}
    {| Scoreboard.ticker := "AMC"; Scoreboard.unique_authors := 1;
       Scoreboard.best_comment := Some "https://www.reddit.com/c" |}).
  assert (Hf : ascending "GME" "AMC" = true).
  { apply H; [lia|vm_compute; reflexivity..]. }
  vm_compute in Hf. discriminate.
Qed.

(** C6: in both aggregators one observation replaces the stored evidence of
    a ticker only when its strength is strictly greater ([keep_best]), so a
    tie keeps the evidence seen earlier; and after the loops the evidence
    stored for a ticker is the first observation that attains the maximum
    strength: no observation is stronger and every earlier one is strictly
    weaker; without observations nothing is stored.  For the maximum over
    the radar's contributions, these are supposed not to be NaN. *)
Theorem evidence_is_first_maximum
    (top : list Scoreboard.comment) (stopwords : gset string) (t : string)
    (rt : Radar.runtime) (cfg : gmap string value) (st : Radar.state)
    (max_out : Z) :
  Radar.aggregate rt cfg stopwords = inr (st, max_out) ->
  strengths_are_numbers (post_observations rt cfg stopwords t) = true ->
  (forall st0 c,
     Scoreboard.ticker_best_comment (Scoreboard.step stopwords st0 c) !! t =
     match comment_observation stopwords t c with
     | Some o => Some (keep_best Z.ltb (Scoreboard.ticker_best_comment st0 !! t) o)
     | None => Scoreboard.ticker_best_comment st0 !! t
     end)
  /\ evidence_of Z.ltb (comment_observations stopwords top t)
       (Scoreboard.ticker_best_comment (Scoreboard.tally stopwords top) !! t)
  /\ (forall src seen st0 st1 stored,
        Radar.process_post rt stopwords src st0 seen = inr st1 ->
        radar_holds st0 t stored ->
        radar_holds st1 t
          match post_observation rt stopwords t (src, seen) with
          | Some o => Some (keep_best PrimFloat.ltb stored o)
          | None => stored
          end)
  /\ exists stored,
       radar_holds st t stored /\
       evidence_of PrimFloat.ltb (post_observations rt cfg stopwords t) stored.
Proof.
  intros Hagg Hnan%strengths_are_numbers_spec. split_and!.
  - intros. apply step_best.
  - apply tally_best.
  - intros src seen st0 st1 stored. apply process_post_holds.
  - by eapply aggregate_evidence.
Qed.

Lemma evidence_is_first_maximum_witness :
  evidence_of Z.ltb (comment_observations ∅ [comment_a; comment_a] "GME")
    (Scoreboard.ticker_best_comment
       (Scoreboard.tally ∅ [comment_a; comment_a]) !! "GME")
  /\ exists stored,
       radar_holds state_x "GME" stored /\
       evidence_of PrimFloat.ltb (post_observations runtime_x cfg_x ∅ "GME") stored.
Proof.
  pose proof (evidence_is_first_maximum [comment_a; comment_a] ∅ "GME"
                runtime_x cfg_x state_x 8) as H.
  destruct H as (_ & Hs & _ & Hr).
  - vm_compute. reflexivity.
  - vm_compute. reflexivity.
  - split; [exact Hs|exact Hr].
Defined.

(** C7 (as amended): every item of the output of [build_scoreboard] has its
    evidence present: it is the link of a comment of the thread that counts
    and mentions the ticker, whatever the scores of the comments are. *)
Theorem evidence_always_present
    (top : list Scoreboard.comment) (stopwords : gset string)
    (max_tickers : Z) (it : Scoreboard.item) :
  In it (Scoreboard.build_scoreboard top stopwords max_tickers) ->
  exists c b a,
    In c top /\ Scoreboard.body c = Some b /\ Scoreboard.author c = Some a /\
    In (Scoreboard.ticker it) (extract_tickers b stopwords) /\
    Scoreboard.best_comment it
      = Some (Scoreboard.REDDIT +:+ default "" (Scoreboard.permalink c)).
Proof. apply build_scoreboard_evidence. Qed.

Lemma evidence_always_present_witness :
  exists c b a,
    In c [comment_a] /\ Scoreboard.body c = Some b /\
    Scoreboard.author c = Some a /\
    In "GME" (extract_tickers b ∅) /\
    Some "https://www.reddit.com/r/sss/comments/1/a"
      = Some (Scoreboard.REDDIT +:+ default "" (Scoreboard.permalink c)).
Proof.
  apply (evidence_always_present [comment_a] ∅ 12
    {| Scoreboard.ticker := "GME"; Scoreboard.unique_authors := 1;
       Scoreboard.best_comment := Some "https://www.reddit.com/r/sss/comments/1/a" |}).
  vm_compute. left. reflexivity.
Defined.

(** C7 as stated fails: no input makes [build_scoreboard] return an item
    whose evidence is absent. *)
Lemma evidence_never_absent :
  ~ exists top stopwords max_tickers it,
      In it (Scoreboard.build_scoreboard top stopwords max_tickers) /\
      Scoreboard.best_comment it = None.
Proof.
  intros (top & stopwords & max_tickers & it & Hin & Hnone).
  apply build_scoreboard_evidence in Hin as (c & b & a & _ & _ & _ & _ & H).
  by rewrite Hnone in H.
Qed.

(** C9: a post created before the clock reading minus the look-back hours
    of its source leaves the three tables as they are. *)
Theorem out_of_window_post_ignored
    (rt : Radar.runtime) (stopwords : gset string) (src : Radar.source)
    (st : Radar.state) (now created : Z) (p : Radar.post) :
  Radar.created_utc p = Some created ->
  (created < now - Radar.lookback_hours src * Radar.US_PER_HOUR)%Z ->
  Radar.process_post rt stopwords src st (now, p) = inr st.
Proof.
  intros Hc Hlt. unfold Radar.process_post.
  assert (Hw : Radar.in_window src now p = false); [|by rewrite Hw].
  unfold Radar.in_window, Radar._within_hours. rewrite Hc.
  unfold Radar.timedelta_hours.
  destruct (_ && _)%Z; [|done]. simpl.
  unfold Radar.datetime_sub. destruct (_ && _)%Z; [|done]. simpl.
  apply Z.leb_gt. lia.
Qed.

Lemma out_of_window_post_ignored_witness :
  Radar.process_post runtime_x ∅
    {| Radar.name := "wsb"; Radar.weight := 1; Radar.mode := "hot";
       Radar.limit_posts := 40; Radar.lookback_hours := 24 |}
    state_x (1700090000000000%Z, post_x) = inr state_x.
Proof.
  apply (out_of_window_post_ignored runtime_x ∅ _ state_x
           1700090000000000 1700000000000000 post_x).
  - reflexivity.
  - vm_compute. reflexivity.
Defined.



(** C8: a [limit_posts] that is not a number makes [build_cross_sub_radar]
    raise [ValueError], whatever the runtime and the stopwords are; the
    reader of the environment, [_env_int], falls back to the default on
    the same text. *)
Theorem malformed_number_raises (rt : Radar.runtime) (stopwords : gset string) :
  Radar.build_cross_sub_radar rt cfg_malformed stopwords = inl ValueError
  /\ Env._env_int "abc" 40 = 40%Z.
Proof.
  split; [|vm_compute; reflexivity].
  unfold Radar.build_cross_sub_radar, Radar.aggregate.
  change (negb (truthy (get cfg_malformed "cross_subs_enabled" (VBool false))))
    with false. cbv iota.
  change (Radar.max_out_of cfg_malformed) with (@inr exn Z 8%Z).
  change (iter (get cfg_malformed "cross_subs" (VList [])))
    with (@inr exn _ [VDict {[ "name" := VStr "wsb"; "limit_posts" := VStr "abc" ]}]).
  reflexivity.
Qed.

End AggregatorClaims.

(** * More on the recogniser and the filter *)
Section ExtractionFacts.
Import Text TICKER_RE Filter Design Design2 Facts.

Lemma chars_cons c s : chars (String c s) = c :: chars s.
Proof. reflexivity. Qed.

Lemma len_upper s : len (upper s) = len s.
Proof.
  unfold upper. rewrite !len_chars, chars_str. apply length_map.
Qed.






(** The canonical form of a raw structural match is a ticker symbol. *)
Lemma canonical_symbol raw :
  structural raw = true -> ticker_symbol (canonical raw) = true.
Proof.
  unfold structural, ticker_symbol, canonical.
  destruct raw as [|c s]; [done|].
  rewrite chars_cons. simpl. by destruct (is_dollar c).
Qed.

Lemma canonical_dollar raw :
  starts_with_dollar raw = true -> structural raw = true ->
  raw = "$" +:+ canonical raw.
Proof.
  unfold canonical. destruct raw as [|c s]; [done|]. simpl. intros Hc _.
  rewrite Hc. simpl. f_equal.
  unfold is_dollar in Hc. apply N.eqb_eq in Hc.
  rewrite <- (ascii_N_embedding c). unfold code in Hc. by rewrite Hc.
Qed.

Lemma extract_tickers_intro text stopwords i raw :
  In (i, raw) (finditer (upper text)) ->
  is_candidate_ticker raw stopwords = true ->
  In (canonical raw) (extract_tickers text stopwords).
Proof.
  intros Hin Hc. unfold extract_tickers.
  destruct (len text =? 0)%nat eqn:E.
  - apply Nat.eqb_eq in E. rewrite <- len_upper in E.
    destruct (upper text); [|done]. done.
  - apply in_flat_map. exists (i, raw). split; [done|]. simpl.
    rewrite Hc. by left.
Qed.

(** Membership in the output of [extract_tickers], in full. *)
Lemma extract_tickers_spec text stopwords t :
  In t (extract_tickers text stopwords) <->
  exists i raw,
    In (i, raw) (finditer (upper text)) /\ canonical raw = t /\
    (if Nat.eqb (len t) 1 then starts_with_dollar raw = true
     else (t ∉ stopwords) /\ (t ∉ REJECT)).
Proof.
  split.
  - intros (i & raw & Hin & Hc & ->)%extract_tickers_inv.
    exists i, raw. split_and!; [done..|].
    pose proof (finditer_structural _ _ _ Hin) as Hs.
    rewrite (is_candidate_ticker_structural _ _ Hs) in Hc.
    unfold canonical in *.
    destruct (starts_with_dollar raw); simpl in Hc.
    + destruct (len (tail raw) =? 1)%nat; [done|]. simpl in Hc.
      apply andb_true_iff in Hc as [H1 H2].
      apply negb_true_iff in H1, H2.
      apply bool_decide_eq_false in H1. apply bool_decide_eq_false in H2.
      done.
    + destruct (len raw =? 1)%nat; [done|]. simpl in Hc.
      apply andb_true_iff in Hc as [H1 H2].
      apply negb_true_iff in H1, H2.
      apply bool_decide_eq_false in H1. apply bool_decide_eq_false in H2.
      done.
  - intros (i & raw & Hin & <- & Hcase).
    apply (extract_tickers_intro _ _ i); [done|].
    pose proof (finditer_structural _ _ _ Hin) as Hs.
    rewrite (is_candidate_ticker_structural _ _ Hs).
    unfold canonical in *.
    destruct (starts_with_dollar raw); simpl.
    + destruct (len (tail raw) =? 1)%nat; [done|]. simpl.
      destruct Hcase as [H1 H2].
      by rewrite !bool_decide_eq_false_2.
    + destruct (len raw =? 1)%nat; [done|]. simpl.
      destruct Hcase as [H1 H2].
      by rewrite !bool_decide_eq_false_2.
Qed.

(** A listed word of more than one letter is not extracted. *)
Lemma listed_not_extracted text stopwords t :
  t ∈ stopwords -> len t <> 1 -> ~ In t (extract_tickers text stopwords).
Proof.
  intros Hsw Hlen (i & raw & _ & _ & Hcase)%extract_tickers_spec.
  apply Nat.eqb_neq in Hlen. rewrite Hlen in Hcase. tauto.
Qed.

Lemma tickers_are_symbols_aux text stopwords t :
  In t (extract_tickers text stopwords) -> ticker_symbol t = true.
Proof.
  intros (i & raw & Hin & _ & ->)%extract_tickers_inv.
  apply canonical_symbol. by eapply finditer_structural.
Qed.

(** X1: Every ticker of the output is one to five upper-case letters: the [$]
    of a prefixed match is gone and nothing else gets through. *)
Theorem tickers_are_symbols (text : string) (stopwords : gset string) (t : string) :
  In t (extract_tickers text stopwords) -> ticker_symbol t = true.
Proof. apply tickers_are_symbols_aux. Qed.

Lemma tickers_are_symbols_witness : ticker_symbol "F" = true.
Proof.
  apply (tickers_are_symbols "$f gme" ∅ "F").
  vm_compute. left. reflexivity.
Defined.


(** X3: A ticker is in the output exactly when the recogniser emits a match of
    which it is the canonical form and, for a single letter, the match
    carries the [$]; for a longer one, it is neither a stopword nor on the
    reject list.  So a single letter gets through only behind a [$], and
    then whatever the stopwords are. *)
Theorem extracted_iff (text : string) (stopwords : gset string) (t : string) :
  In t (extract_tickers text stopwords) <->
  exists i raw,
    In (i, raw) (finditer (upper text)) /\ canonical raw = t /\
    (if Nat.eqb (len t) 1 then starts_with_dollar raw = true
     else (t ∉ stopwords) /\ (t ∉ REJECT)).
Proof. apply extract_tickers_spec. Qed.

(** X4: The strings of the reject list are never in the output, with or without
    a [$] in the text. *)
Theorem reject_list_never_emitted (text : string) (stopwords : gset string) (t : string) :
  t ∈ REJECT -> ~ In t (extract_tickers text stopwords).
Proof.
  intros Hr (i & raw & _ & _ & Hcase)%extract_tickers_spec.
  assert (Hlen : (len t =? 1)%nat = false).
  { unfold REJECT in Hr.
    apply elem_of_union in Hr as [[->%elem_of_singleton| ->%elem_of_singleton]%elem_of_union
                                 | ->%elem_of_singleton]; reflexivity. }
  rewrite Hlen in Hcase. tauto.
Qed.

Lemma reject_list_never_emitted_witness :
  ~ In "AAAA" (extract_tickers "AAAA $AAAA aaaa" ∅).
Proof.
  apply (reject_list_never_emitted "AAAA $AAAA aaaa" ∅ "AAAA").
  vm_compute. reflexivity.
Defined.

End ExtractionFacts.

(** * The stopword file and the search for the daily thread *)
Section LoaderFacts.
Import Text TICKER_RE Filter Py Design Design2 Facts.
Import Loader.

Lemma add_line_spec sw line t :
  t ∈ add_line sw line <->
  t ∈ sw \/ (t = upper (strip line) /\ len t <> 0 /\ starts_with_hash t = false).
Proof.
  unfold add_line.
  destruct (len (upper (strip line)) =? 0)%nat eqn:E1; simpl.
  - apply Nat.eqb_eq in E1. split; [by left|].
    intros [?|(-> & H & _)]; [done|]. by destruct H.
  - apply Nat.eqb_neq in E1.
    destruct (starts_with_hash (upper (strip line))) eqn:E2; simpl.
    + split; [by left|]. intros [?|(-> & _ & H)]; [done|]. congruence.
    + rewrite elem_of_union, elem_of_singleton. split.
      * intros [->|?]; [by right|by left].
      * intros [?|(-> & _)]; [by right|by left].
Qed.

Lemma foldl_add_line_spec lines : forall sw t,
  t ∈ foldl add_line sw lines <->
  t ∈ sw \/ exists line,
    line ∈ lines /\ t = upper (strip line) /\ len t <> 0 /\
    starts_with_hash t = false.
Proof.
  induction lines as [|l lines IH]; intros sw t; simpl.
  { split; [by left|]. intros [?|(? & H & _)]; [done|]. by apply elem_of_nil in H. }
  rewrite IH, add_line_spec. split.
  - intros [[?|H]|(line & Hin & H)].
    + by left.
    + right. exists l. split; [by left|done].
    + right. exists line. split; [by right|done].
  - intros [?|(line & Hin & H)].
    + by left; left.
    + apply elem_of_cons in Hin as [->|Hin].
      * left. by right.
      * right. by exists line.
Qed.

(** X5: The stopword set holds exactly the lines of the file, stripped and
    upper-cased, that are not empty and do not start with [#]; without the
    file it is empty. *)
Theorem load_stopwords_spec (file : option (list string)) (t : string) :
  t ∈ load_stopwords file <->
  exists lines line,
    file = Some lines /\ line ∈ lines /\ t = upper (strip line) /\
    len t <> 0 /\ starts_with_hash t = false.
Proof.
  destruct file as [lines|]; simpl.
  - rewrite foldl_add_line_spec. split.
    + intros [H|(line & H)]; [by apply not_elem_of_empty in H|].
      by exists lines, line.
    + intros (lines' & line & [= <-] & H). right. by exists line.
  - split; [by intros H%not_elem_of_empty|]. by intros (? & ? & [=] & _).
Qed.

(** X6: A word of the stopword file, however it is capitalised there and in the
    text, is never extracted, unless it is a single letter.  Comment lines
    and blank lines suppress nothing and are no tickers either. *)
Theorem listed_word_never_extracted (lines : list string) (line text : string) :
  line ∈ lines ->
  len (upper (strip line)) <> 1 ->
  ~ In (upper (strip line)) (extract_tickers text (load_stopwords (Some lines))).
Proof.
  intros Hin Hlen Hout.
  set (w := upper (strip line)) in *.
  destruct (decide (w ∈ load_stopwords (Some lines))) as [Hsw|Hsw].
  { by apply (listed_not_extracted text _ w Hsw Hlen). }
  pose proof (tickers_are_symbols_aux text _ w Hout) as Hsym.
  apply Hsw, load_stopwords_spec. exists lines, line. split_and!; try done.
  - unfold ticker_symbol, letters_1_to_5 in Hsym. rewrite len_chars.
    destruct (chars w); [done|]. done.
  - unfold ticker_symbol, letters_1_to_5 in Hsym.
    destruct w as [|c s]; [done|]. rewrite chars_cons in Hsym. simpl in *.
    apply andb_true_iff in Hsym as [_ [Hc _]%andb_true_iff].
    unfold is_AZ in Hc. apply andb_true_iff in Hc as [Hc _].
    apply N.leb_le in Hc. apply N.eqb_neq. lia.
Qed.

Lemma listed_word_never_extracted_witness :
  ~ In (upper (strip " the ")) (extract_tickers "The THE $the GME"
         (load_stopwords (Some ["# common words"; " the "; "and"]))).
Proof.
  apply (listed_word_never_extracted ["# common words"; " the "; "and"] " the ").
  - apply list_elem_of_In. vm_compute. right. left. reflexivity.
  - vm_compute. lia.
Defined.

End LoaderFacts.

Section ThreadFacts.
Import Text Py Design2.
Import Thread.

Lemma first_with_prefix_sound cutoff title_prefix posts p :
  first_with_prefix cutoff title_prefix posts = Some p ->
  exists pre post,
    posts = pre ++ p :: post /\
    Forall (fun q => (cutoff <= created_utc q)%Z /\ titled title_prefix q = false) pre /\
    (cutoff <= created_utc p)%Z /\ titled title_prefix p = true.
Proof.
  induction posts as [|q posts IH]; simpl; [done|].
  destruct (created_utc q <? cutoff)%Z eqn:E; [done|]. apply Z.ltb_ge in E.
  destruct (startswith (strip (title q)) title_prefix) eqn:Et.
  - intros [= <-]. exists [], posts. split_and!; try done.
  - intros (pre & post & -> & Hpre & Hp)%IH.
    exists (q :: pre), post. split_and!; try tauto.
    constructor; [|done]. done.
Qed.

Lemma first_with_prefix_complete cutoff title_prefix pre p post :
  Forall (fun q => (cutoff <= created_utc q)%Z /\ titled title_prefix q = false) pre ->
  (cutoff <= created_utc p)%Z -> titled title_prefix p = true ->
  first_with_prefix cutoff title_prefix (pre ++ p :: post) = Some p.
Proof.
  intros Hpre Hc Ht. induction Hpre as [|q pre [Hq1 Hq2] Hpre IH]; simpl.
  - apply Z.ltb_ge in Hc. rewrite Hc. unfold titled in Ht. by rewrite Ht.
  - apply Z.ltb_ge in Hq1. rewrite Hq1. unfold titled in Hq2. by rewrite Hq2.
Qed.

(** X7: The search returns a submission exactly when it stands in the listing
    with the title prefix and within the look-back window, and every
    submission listed before it is within the window too and lacks the
    prefix: the newest-first scan stops at the first stale submission, so
    nothing listed after one is ever returned. *)
Theorem find_latest_daily_thread_spec
    (now : Z) (new : Z -> list submission) (title_prefix : string)
    (lookback_hours delta cutoff : Z) (p : submission) :
  Radar.timedelta_hours lookback_hours = inr delta ->
  Radar.datetime_sub now delta = inr cutoff ->
  (find_latest_daily_thread now new title_prefix lookback_hours = inr (Some p) <->
   exists pre post,
     new 50%Z = pre ++ p :: post /\
     Forall (fun q => (cutoff <= created_utc q)%Z /\ titled title_prefix q = false) pre /\
     (cutoff <= created_utc p)%Z /\ titled title_prefix p = true).
Proof.
  intros Hd Hc. unfold find_latest_daily_thread. rewrite Hd. simpl.
  rewrite Hc. simpl. split.
  - intros [= H]. by apply first_with_prefix_sound.
  - intros (pre & post & -> & Hpre & Hp1 & Hp2).
    by rewrite first_with_prefix_complete.
Qed.

Lemma find_latest_daily_thread_spec_witness :
  find_latest_daily_thread 1700003600000000
    (fun _ => [Examples2.thread_chat; Examples2.thread_daily; Examples2.thread_stale])
    "Daily Squeeze Scanner" 48
  = inr (Some Examples2.thread_daily).
Proof.
  apply (find_latest_daily_thread_spec 1700003600000000
           (fun _ => [Examples2.thread_chat; Examples2.thread_daily;
                      Examples2.thread_stale])
           "Daily Squeeze Scanner" 48
           172800000000 1699830800000000 Examples2.thread_daily
           eq_refl eq_refl).
  exists [Examples2.thread_chat], [Examples2.thread_stale].
  split_and!.
  - reflexivity.
  - constructor; [|constructor]. split; [vm_compute; discriminate|reflexivity].
  - vm_compute. discriminate.
  - reflexivity.
Defined.

End ThreadFacts.

(** * More on the single-thread aggregator *)
Section ScoreboardExtras.
Import Text Filter Py Design Design2 Facts Examples Examples2.
Import Scoreboard.

Lemma step_authors_exact stopwords st c t :
  ticker_authors (step stopwords st c) !! t =
  match comment_author stopwords t c with
  | Some a => Some (default ∅ (ticker_authors st !! t) ∪ {[ a ]})
  | None => ticker_authors st !! t
  end.
Proof.
  unfold step, comment_author.
  destruct (body c) as [b|]; [|done]. destruct (author c) as [a|]; [|done].
  destruct (decide (list_to_set (extract_tickers b stopwords) = (∅ : gset string)))
    as [He|He].
  - rewrite decide_False; [done|]. set_solver.
  - rewrite (set_fold_view (fun st t => ticker_authors st !! t) _
      (fun v => Some (default ∅ v ∪ {[ lower a ]}))).
    + destruct (decide (t ∈ extract_tickers b stopwords)).
      * by rewrite decide_True by set_solver.
      * by rewrite decide_False by set_solver.
    + intros. apply note_authors_same.
    + intros. by apply note_authors_other.
Qed.

Lemma foldl_step_authors_exact stopwords top : forall st t,
  ticker_authors (foldl (step stopwords) st top) !! t =
  foldl (fun acc a => Some (default ∅ acc ∪ {[ a ]}))
    (ticker_authors st !! t) (omap (comment_author stopwords t) top).
Proof.
  induction top as [|c top IH]; intros st t; simpl; [done|].
  rewrite IH, step_authors_exact.
  by destruct (comment_author stopwords t c).
Qed.

Lemma foldl_authors_some (l : list string) : forall s : gset string,
  foldl (fun acc a => Some (default ∅ acc ∪ {[ a ]})) (Some s) l
  = Some (s ∪ list_to_set l).
Proof.
  induction l as [|a l IH]; intros s; simpl.
  - by rewrite (right_id_L ∅ (∪)).
  - by rewrite IH, (assoc_L (∪)).
Qed.

Lemma tally_authors_exact stopwords top t :
  ticker_authors (tally stopwords top) !! t =
  match omap (comment_author stopwords t) top with
  | [] => None
  | l => Some (list_to_set l)
  end.
Proof.
  unfold tally. rewrite foldl_step_authors_exact.
  change (ticker_authors init !! t) with (@None (gset string)).
  destruct (omap (comment_author stopwords t) top) as [|a l]; [done|].
  cbn [foldl default]. rewrite (left_id_L ∅ (∪)). by rewrite foldl_authors_some.
Qed.

Lemma tally_author_count stopwords top t s :
  ticker_authors (tally stopwords top) !! t = Some s ->
  size s = author_count stopwords top t.
Proof.
  rewrite tally_authors_exact. unfold author_count.
  destruct (omap (comment_author stopwords t) top); [done|]. by intros [= <-].
Qed.

Lemma comment_observations_mentioned stopwords top t :
  comment_observations stopwords top t <> [] <-> mentioned stopwords top t.
Proof.
  unfold mentioned. split.
  - intros H. destruct (comment_observations stopwords top t) as [|o l] eqn:E; [done|].
    assert (Ho : comment_observations stopwords top t !! 0 = Some o) by (by rewrite E).
    apply comment_observations_inv in Ho as (c & Hc & Ho).
    unfold comment_observation in Ho.
    destruct (body c) as [b|] eqn:Eb; [|done].
    destruct (author c) as [a|] eqn:Ea; [|done].
    destruct (decide (t ∈ extract_tickers b stopwords)) as [Ht|]; [|done].
    exists c, b, a. split_and!; try done. by apply list_elem_of_In.
  - intros (c & b & a & Hc & Hb & Ha & Ht) E.
    assert (Hin : (default 0%Z (score c), REDDIT +:+ default "" (permalink c))
                  ∈ comment_observations stopwords top t).
    { apply list_elem_of_omap. exists c. split; [by apply list_elem_of_In|].
      unfold comment_observation. rewrite Hb, Ha.
      rewrite decide_True; [done|]. by apply list_elem_of_In. }
    rewrite E in Hin. by apply elem_of_nil in Hin.
Qed.

Lemma ranked_lookup st max_tickers i kv :
  ranked st max_tickers !! i = Some kv ->
  sorted_reverse key_lt (map_to_list (ticker_authors st)) !! i = Some kv /\
  ticker_authors st !! kv.1 = Some kv.2.
Proof.
  intros H%slice_to_lookup. split; [done|].
  apply list_elem_of_lookup_2 in H. rewrite sorted_reverse_perm in H.
  destruct kv. by apply elem_of_map_to_list.
Qed.


Lemma slice_to_take {A} (n : Z) (l : list A) :
  slice_to n l = take (length (slice_to n l)) l.
Proof.
  unfold slice_to. destruct (0 <=? n)%Z; rewrite length_take.
  - destruct (decide (Z.to_nat n <= length l)).
    + by rewrite Nat.min_l.
    + rewrite Nat.min_r by lia. by rewrite !take_ge by lia.
  - by rewrite Nat.min_l by lia.
Qed.

Lemma build_scoreboard_lookup top stopwords max_tickers i it :
  build_scoreboard top stopwords max_tickers !! i = Some it <->
  exists kv,
    ranked (tally stopwords top) max_tickers !! i = Some kv /\
    it = make_item (tally stopwords top) kv.
Proof.
  unfold build_scoreboard. rewrite list_lookup_fmap.
  destruct (ranked _ _ !! i) as [kv|]; simpl.
  - split; [intros [= <-]; by exists kv|]. by intros (? & [= <-] & ->).
  - split; [done|]. by intros (? & [=] & _).
Qed.

Lemma build_scoreboard_tickers top stopwords max_tickers :
  map ticker (build_scoreboard top stopwords max_tickers)
  = (ranked (tally stopwords top) max_tickers).*1.
Proof.
  unfold build_scoreboard. rewrite map_map. by apply map_ext.
Qed.

(** X8: The count shown for a ticker is the number of distinct authors, up to
    the case of their names, of the counted comments that mention it: an
    author who mentions a ticker several times, in one comment or in many,
    under any capitalisation of the name, counts once. *)
Theorem unique_authors_are_distinct_authors
    (top : list comment) (stopwords : gset string) (max_tickers : Z) (it : item) :
  In it (build_scoreboard top stopwords max_tickers) ->
  unique_authors it = author_count stopwords top (ticker it).
Proof.
  intros Hin. apply list_elem_of_In, list_elem_of_lookup in Hin as [i Hi].
  apply build_scoreboard_lookup in Hi as (kv & Hkv & ->).
  apply ranked_lookup in Hkv as [_ Hkv]. simpl.
  by apply tally_author_count.
Qed.

Lemma unique_authors_are_distinct_authors_witness :
  1 = author_count ∅ [comment_a; comment_b] "GME".
Proof.
  apply (unique_authors_are_distinct_authors [comment_a; comment_b] ∅ 12
    {| ticker := "GME"; unique_authors := 1;
       best_comment := Some "https://www.reddit.com/r/sss/comments/1/b" |}).
  vm_compute. left. reflexivity.
Defined.


(** X10: No ticker appears twice in the output. *)
Theorem scoreboard_tickers_distinct
    (top : list comment) (stopwords : gset string) (max_tickers : Z) :
  NoDup (map ticker (build_scoreboard top stopwords max_tickers)).
Proof.
  rewrite build_scoreboard_tickers. unfold ranked.
  rewrite slice_to_take, fmap_take.
  eapply sublist_NoDup; [|apply sublist_take].
  rewrite sorted_reverse_perm. apply NoDup_fst_map_to_list.
Qed.

(** X11: The output is in descending order of the number of unique authors. *)
Theorem scoreboard_sorted_by_authors
    (top : list comment) (stopwords : gset string) (max_tickers : Z)
    (i j : nat) (x y : item) :
  i < j ->
  build_scoreboard top stopwords max_tickers !! i = Some x ->
  build_scoreboard top stopwords max_tickers !! j = Some y ->
  unique_authors y <= unique_authors x.
Proof.
  intros Hij (a & Ha & ->)%build_scoreboard_lookup
    (b & Hb & ->)%build_scoreboard_lookup.
  destruct (ranked_descending _ _ _ _ _ _ Hij Ha Hb) as [Hlt _].
  unfold key_lt in Hlt. simpl.
  destruct (size a.2 =? size b.2)%nat eqn:E.
  - apply Nat.eqb_eq in E. lia.
  - apply Nat.ltb_ge in Hlt. lia.
Qed.

Lemma scoreboard_sorted_by_authors_witness : 1 <= 2.
Proof.
  apply (scoreboard_sorted_by_authors
           [comment_a; comment_b;
            {| body := Some "$gme"; author := Some "bob"; score := None;
               permalink := None |}] ∅ 12 0 1
           {| ticker := "GME"; unique_authors := 2;
              best_comment := Some "https://www.reddit.com/r/sss/comments/1/b" |}
           {| ticker := "AND"; unique_authors := 1;
              best_comment := Some "https://www.reddit.com/r/sss/comments/1/a" |}).
  - lia.
  - vm_compute. reflexivity.
  - vm_compute. reflexivity.
Defined.

Lemma ranking_sorted st :
  StronglySorted (fun a b => key_lt a b = false)
    (sorted_reverse key_lt (map_to_list (ticker_authors st))).
Proof.
  apply (sorted_reverse_sorted key_lt (fun _ => True)).
  - intros ?? _ _. apply key_lt_asym.
  - intros ??? _ _ _. apply key_lt_negtrans.
  - by apply Forall_forall.
Qed.

Lemma ranking_tickers st t :
  t ∈ (sorted_reverse key_lt (map_to_list (ticker_authors st))).*1 <->
  is_Some (ticker_authors st !! t).
Proof.
  rewrite sorted_reverse_perm, list_elem_of_fmap. split.
  - intros ([t' s] & -> & H%elem_of_map_to_list). by eexists.
  - intros [s Hs]. exists (t, s). split; [done|]. by apply elem_of_map_to_list.
Qed.

(** X12: When the cap is not below the number of distinct tickers, the output
    lists exactly the tickers that some counted comment mentions. *)
Theorem scoreboard_lists_mentioned
    (top : list comment) (stopwords : gset string) (max_tickers : Z) (t : string) :
  (Z.of_nat (distinct_tickers stopwords top) <= max_tickers)%Z ->
  (In t (map ticker (build_scoreboard top stopwords max_tickers)) <->
   mentioned stopwords top t).
Proof.
  intros Hcap. rewrite build_scoreboard_tickers.
  rewrite <- comment_observations_mentioned, <- tally_authors, <- ranking_tickers.
  unfold ranked, slice_to.
  assert (H0 : (0 <=? max_tickers)%Z = true) by (apply Z.leb_le; lia).
  rewrite H0, take_ge; [by rewrite list_elem_of_In|].
  rewrite sorted_reverse_perm, length_map_to_list.
  unfold distinct_tickers in Hcap. lia.
Qed.

Lemma scoreboard_lists_mentioned_witness :
  In "AMC" (map ticker (build_scoreboard [comment_a; comment_b] ∅ 12)) <->
  mentioned ∅ [comment_a; comment_b] "AMC".
Proof.
  apply (scoreboard_lists_mentioned [comment_a; comment_b] ∅ 12 "AMC").
  vm_compute. discriminate.
Defined.

Lemma step_uncounted stopwords st c : uncounted c -> step stopwords st c = st.
Proof.
  unfold step. intros [H|H].
  - by rewrite H.
  - rewrite H. by destruct (body c).
Qed.

(** X13: A comment without a body or without an author changes nothing, wherever
    it stands in the thread: deleted authors count for no ticker and give no
    evidence. *)
Theorem uncounted_comment_ignored
    (before after : list comment) (c : comment) (stopwords : gset string)
    (max_tickers : Z) :
  uncounted c ->
  build_scoreboard (before ++ c :: after) stopwords max_tickers
  = build_scoreboard (before ++ after) stopwords max_tickers.
Proof.
  intros Hc. unfold build_scoreboard, tally.
  rewrite !foldl_app. cbn [foldl]. by rewrite (step_uncounted _ _ _ Hc).
Qed.

Lemma uncounted_comment_ignored_witness :
  build_scoreboard ([comment_a] ++ comment_deleted :: [comment_b]) ∅ 12
  = build_scoreboard ([comment_a] ++ [comment_b]) ∅ 12.
Proof.
  apply (uncounted_comment_ignored [comment_a] [comment_b] comment_deleted ∅ 12).
  right. reflexivity.
Defined.

(** X14: The cap cuts at the bottom of the ranking: a ticker that is left out
    has no more distinct authors than any ticker of the output. *)
Theorem cap_keeps_the_best
    (top : list comment) (stopwords : gset string) (max_tickers : Z)
    (it : item) (t : string) :
  In it (build_scoreboard top stopwords max_tickers) ->
  ~ In t (map ticker (build_scoreboard top stopwords max_tickers)) ->
  author_count stopwords top t <= unique_authors it.
Proof.
  intros Hin Hout. apply list_elem_of_In, list_elem_of_lookup in Hin as [i Hi].
  apply build_scoreboard_lookup in Hi as (a & Ha & ->). simpl.
  destruct (ticker_authors (tally stopwords top) !! t) as [s|] eqn:Et; last first.
  { rewrite tally_authors_exact in Et. unfold author_count.
    destruct (omap (comment_author stopwords t) top); [|done].
    change (size (list_to_set [] : gset string)) with (size (∅ : gset string)).
    rewrite size_empty. lia. }
  rewrite <- (tally_author_count _ _ _ _ Et).
  pose proof (lookup_lt_Some _ _ _ Ha) as Hlen.
  apply ranked_lookup in Ha as [Ha _].
  assert (Hts : (t, s) ∈ sorted_reverse key_lt
                  (map_to_list (ticker_authors (tally stopwords top)))).
  { rewrite sorted_reverse_perm. by apply elem_of_map_to_list. }
  apply list_elem_of_lookup in Hts as [j Hj].
  destruct (decide (j < length (ranked (tally stopwords top) max_tickers)))
    as [Hlt|Hge].
  - exfalso. apply Hout. rewrite build_scoreboard_tickers.
    apply list_elem_of_In, list_elem_of_fmap. exists (t, s). split; [done|].
    apply (list_elem_of_lookup_2 _ j). unfold ranked in *.
    rewrite slice_to_take, lookup_take_lt; done.
  - assert (Hk : key_lt a (t, s) = false).
    { eapply (StronglySorted_lookup (fun a b => key_lt a b = false));
        [apply ranking_sorted| |exact Ha|exact Hj]. lia. }
    unfold key_lt in Hk. simpl in Hk.
    destruct (size a.2 =? size s)%nat eqn:E.
    + apply Nat.eqb_eq in E. lia.
    + apply Nat.ltb_ge in Hk. lia.
Qed.

Lemma cap_keeps_the_best_witness :
  author_count ∅ [comment_a; comment_b] "AMC" <= 1.
Proof.
  apply (cap_keeps_the_best [comment_a; comment_b] ∅ 1
           {| ticker := "GME"; unique_authors := 1;
              best_comment := Some "https://www.reddit.com/r/sss/comments/1/b" |}
           "AMC").
  - vm_compute. left. reflexivity.
  - vm_compute. intros [H|[]]. discriminate.
Defined.

End ScoreboardExtras.

(** * More on the cross-subreddit aggregator *)
Section RadarViews.
Import Text Filter Py Design Design2 Facts.
Import Radar.

(** How a table entry of one ticker evolves along the posts, for any way
    [view] of reading the tables that [credit] updates by [on]. *)
Context {V : Type} (view : state -> string -> V)
  (on : float * (string * string) -> V -> V).
Hypothesis credit_on : forall src engagement url t st,
  view (credit src engagement url t st) t =
  on ((weight src * engagement)%float, (url, "r/" +:+ name src)) (view st t).
Hypothesis credit_off : forall src engagement url t t' st,
  t <> t' -> view (credit src engagement url t st) t' = view st t'.

Lemma process_post_on rt stopwords src st seen st' t :
  process_post rt stopwords src st seen = inr st' ->
  view st' t =
  match post_observation rt stopwords t (src, seen) with
  | Some o => on o (view st t)
  | None => view st t
  end.
Proof.
  destruct seen as [now p]. unfold process_post, post_observation.
  destruct (in_window src now p); simpl; [|by intros [= <-]].
  destruct (decide (tickers_of stopwords p = ∅)) as [He|He].
  { intros [= <-]. rewrite bool_decide_eq_false_2; [done|].
    rewrite He. apply not_elem_of_empty. }
  destruct (float_of_int (default 0%Z (score p))) as [e|sc]; [done|].
  destruct (float_of_int (default 0%Z (num_comments p))) as [e|com]; [done|].
  simpl. intros [= <-].
  rewrite (set_fold_view view _
    (on ((weight src * engagement_of rt sc com)%float,
         (REDDIT +:+ default "" (permalink p), "r/" +:+ name src)))).
  - destruct (decide (t ∈ tickers_of stopwords p)).
    + by rewrite bool_decide_eq_true_2.
    + by rewrite bool_decide_eq_false_2.
  - intros. apply credit_on.
  - intros. by apply credit_off.
Qed.

#[local] Arguments post_observation : simpl never.
#[local] Arguments source_feed : simpl never.

Lemma for_each_posts_on rt stopwords src t l : forall st st',
  for_each (process_post rt stopwords src) st l = inr st' ->
  view st' t =
  foldl (fun v o => on o v) (view st t)
    (omap (post_observation rt stopwords t) (map (pair src) l)).
Proof.
  induction l as [|seen l IH]; intros st st'; simpl.
  { by intros [= <-]. }
  destruct (process_post rt stopwords src st seen) as [e|st1] eqn:E; [done|].
  simpl. intros Hl.
  rewrite (IH _ _ Hl), (process_post_on _ _ _ _ _ _ t E).
  by destruct (post_observation rt stopwords t (src, seen)).
Qed.

Lemma for_each_sources_on rt stopwords t l : forall st st',
  for_each (process_source rt stopwords) st l = inr st' ->
  view st' t =
  foldl (fun v o => on o v) (view st t)
    (omap (post_observation rt stopwords t) (l ≫= source_feed rt)).
Proof.
  induction l as [|s l IH]; intros st st'; simpl.
  { by intros [= <-]. }
  destruct (process_source rt stopwords st s) as [e|st1] eqn:E; [done|].
  simpl. intros Hl. rewrite omap_app, foldl_app, (IH _ _ Hl). f_equal.
  unfold process_source, source_feed in *.
  destruct (read_source rt s) as [e|[src|]]; simpl in *; [done| |].
  - by apply for_each_posts_on.
  - by injection E as <-.
Qed.

Lemma aggregate_on rt cfg stopwords st max_out t :
  aggregate rt cfg stopwords = inr (st, max_out) ->
  view st t =
  foldl (fun v o => on o v) (view init t) (post_observations rt cfg stopwords t).
Proof.
  unfold aggregate, post_observations.
  destruct (max_out_of cfg) as [e|m]; [done|]. simpl.
  destruct (iter (get cfg "cross_subs" (VList []))) as [e|sources]; [done|].
  simpl.
  destruct (for_each (process_source rt stopwords) init sources)
    as [e|st1] eqn:E; [done|].
  simpl. intros [= <- <-]. by apply for_each_sources_on.
Qed.

End RadarViews.

Section RadarExtras.
Import Text Filter Py Design Design2 Facts Examples Examples2.
Import Radar.

Lemma credit_total_on src engagement url t st :
  agg_score (credit src engagement url t st) !! t =
  Some (default 0 (agg_score st !! t) + weight src * engagement)%float.
Proof.
  unfold credit.
  destruct (match best_link st !! t with
            | Some prev => (prev.1 <? weight src * engagement)%float
            | None => true
            end); simpl; by rewrite lookup_insert_eq.
Qed.

Lemma credit_total_off src engagement url t t' st :
  t <> t' -> agg_score (credit src engagement url t st) !! t' = agg_score st !! t'.
Proof.
  intros Hne. unfold credit.
  destruct (match best_link st !! t with
            | Some prev => (prev.1 <? weight src * engagement)%float
            | None => true
            end); simpl; by rewrite lookup_insert_ne.
Qed.

Lemma foldl_total_some (obs : list (float * (string * string))) : forall x,
  foldl (fun v o => Some (default 0 v + o.1)%float) (Some x) obs
  = Some (foldl (fun x o => (x + o.1)%float) x obs).
Proof. induction obs as [|o obs IH]; intros x; simpl; [done|]. by rewrite IH. Qed.

Lemma aggregate_total rt cfg stopwords st max_out t :
  aggregate rt cfg stopwords = inr (st, max_out) ->
  agg_score st !! t =
  match post_observations rt cfg stopwords t with
  | [] => None
  | obs => Some (total_of obs)
  end.
Proof.
  intros H.
  rewrite (aggregate_on (fun st t => agg_score st !! t)
             (fun o v => Some (default 0 v + o.1)%float)
             credit_total_on credit_total_off _ _ _ _ _ t H).
  change (agg_score init !! t) with (@None float).
  destruct (post_observations rt cfg stopwords t) as [|o obs]; [done|].
  cbn [foldl]. by rewrite foldl_total_some.
Qed.

Lemma foldl_credit_view_unpack obs : forall acc,
  foldl (fun v o => credit_view o v) (unpack acc) obs =
  unpack (foldl (fun acc o => Some (keep_best PrimFloat.ltb acc o)) acc obs).
Proof.
  induction obs as [|o obs IH]; intros acc; simpl; [done|].
  by rewrite credit_view_unpack, IH.
Qed.

Lemma aggregate_view rt cfg stopwords st max_out t :
  aggregate rt cfg stopwords = inr (st, max_out) ->
  radar_holds st t
    (foldl (fun acc o => Some (keep_best PrimFloat.ltb acc o)) None
       (post_observations rt cfg stopwords t)).
Proof.
  intros H. apply radar_holds_view.
  rewrite (aggregate_on evidence_view credit_view credit_same credit_other
             _ _ _ _ _ t H).
  apply (foldl_credit_view_unpack _ None).
Qed.

(** The evidence kept is always one of the observations. *)
Lemma fold_best_mem {S R} (lt : S -> S -> bool) (obs : list (S * R)) : forall acc e,
  foldl (fun acc o => Some (keep_best lt acc o)) acc obs = Some e ->
  acc = Some e \/ e ∈ obs.
Proof.
  induction obs as [|o obs IH]; intros acc e; simpl; [by left|].
  intros [[= H]|H]%IH; [|right; by right].
  unfold keep_best in H. destruct acc as [p|].
  - destruct (lt p.1 o.1); subst; [right; by left|by left].
  - subst. right. by left.
Qed.

Lemma fold_best_nonempty {S R} (lt : S -> S -> bool) (obs : list (S * R)) o acc :
  is_Some (foldl (fun acc o => Some (keep_best lt acc o)) acc (o :: obs)).
Proof.
  simpl. generalize (keep_best lt acc o) as x.
  induction obs as [|o' obs IH]; intros x; simpl.
  - by eexists.
  - apply IH.
Qed.

Lemma build_inv rt cfg stopwords out :
  build_cross_sub_radar rt cfg stopwords = inr out ->
  out = [] \/
  exists st max_out,
    aggregate rt cfg stopwords = inr (st, max_out) /\
    out = map (make_item rt st) (ranked st max_out).
Proof.
  unfold build_cross_sub_radar.
  destruct (negb (truthy (get cfg "cross_subs_enabled" (VBool false)))).
  - intros [= <-]. by left.
  - destruct (aggregate rt cfg stopwords) as [e|[st m]]; [done|].
    simpl. intros [= <-]. right. by exists st, m.
Qed.

Lemma radar_ranked_lookup st max_out i kv :
  ranked st max_out !! i = Some kv ->
  sorted_reverse key_lt (map_to_list (agg_score st)) !! i = Some kv /\
  agg_score st !! kv.1 = Some kv.2.
Proof.
  intros H%slice_to_lookup. split; [done|].
  apply list_elem_of_lookup_2 in H. rewrite sorted_reverse_perm in H.
  destruct kv. by apply elem_of_map_to_list.
Qed.

(** X15: The total of a ticker is the sum of its contributions, weight times
    engagement, over all the sources, added in the order of the loops; a
    ticker without a contribution has no total. *)
Theorem radar_total_is_sum
    (rt : runtime) (cfg : gmap string value) (stopwords : gset string)
    (st : state) (max_out : Z) (t : string) :
  aggregate rt cfg stopwords = inr (st, max_out) ->
  agg_score st !! t =
  match post_observations rt cfg stopwords t with
  | [] => None
  | obs => Some (total_of obs)
  end.
Proof. apply aggregate_total. Qed.

Lemma radar_total_is_sum_witness :
  agg_score state_x !! "GME" =
  match post_observations runtime_x cfg_x ∅ "GME" with
  | [] => None
  | obs => Some (total_of obs)
  end.
Proof.
  apply (radar_total_is_sum runtime_x cfg_x ∅ state_x 8 "GME").
  vm_compute. reflexivity.
Defined.

Lemma radar_evidence_present_aux rt cfg stopwords out (it : item) :
  build_cross_sub_radar rt cfg stopwords = inr out ->
  In it out ->
  exists o,
    In o (post_observations rt cfg stopwords (ticker it)) /\
    best_post it = Some o.2.1 /\ best_src_name it = Some o.2.2.
Proof.
  intros [->|(st & m & Hagg & ->)]%build_inv Hin; [done|].
  apply list_elem_of_In, list_elem_of_lookup in Hin as [i Hi].
  rewrite list_lookup_fmap in Hi.
  destruct (ranked st m !! i) as [kv|] eqn:Ekv; [|done]. injection Hi as <-.
  apply radar_ranked_lookup in Ekv as [_ Hkv]. simpl.
  rewrite (aggregate_total _ _ _ _ _ kv.1 Hagg) in Hkv.
  destruct (aggregate_view _ _ _ _ _ kv.1 Hagg) as [Hl Hs].
  destruct (post_observations rt cfg stopwords kv.1) as [|o obs] eqn:E; [done|].
  destruct (fold_best_nonempty PrimFloat.ltb obs o None) as [e He].
  rewrite He in Hl, Hs. simpl in Hl, Hs.
  apply fold_best_mem in He as [[=]|He].
  exists e. rewrite Hl, Hs. split; [by apply list_elem_of_In|done].
Qed.

(** X16: Every item of the radar has its post and its source: they are the link
    and the label of one contribution to its ticker. *)
Theorem radar_evidence_present
    (rt : runtime) (cfg : gmap string value) (stopwords : gset string)
    (out : list item) (it : item) :
  build_cross_sub_radar rt cfg stopwords = inr out ->
  In it out ->
  exists o,
    In o (post_observations rt cfg stopwords (ticker it)) /\
    best_post it = Some o.2.1 /\ best_src_name it = Some o.2.2.
Proof. apply radar_evidence_present_aux. Qed.

Lemma radar_evidence_present_witness :
  exists o,
    In o (post_observations runtime_x cfg_x ∅ "GME") /\
    Some "https://www.reddit.com/r/wsb/comments/2/x" = Some o.2.1 /\
    Some "r/wsb" = Some o.2.2.
Proof.
  apply (radar_evidence_present runtime_x cfg_x ∅
           (map (make_item runtime_x state_x) (ranked state_x 8))
           {| ticker := "GME"; score_2dp := 1.3999999999999999;
              best_post := Some "https://www.reddit.com/r/wsb/comments/2/x";
              best_src_name := Some "r/wsb" |}).
  - vm_compute. reflexivity.
  - vm_compute. left. reflexivity.
Defined.



(** X18: No ticker appears twice in the radar. *)
Theorem radar_tickers_distinct
    (rt : runtime) (cfg : gmap string value) (stopwords : gset string)
    (out : list item) :
  build_cross_sub_radar rt cfg stopwords = inr out ->
  NoDup (map ticker out).
Proof.
  intros [->|(st & m & _ & ->)]%build_inv; [constructor|].
  rewrite map_map.
  replace (map (fun x => ticker (make_item rt st x)) (ranked st m))
    with ((ranked st m).*1) by (by apply map_ext).
  unfold ranked. rewrite slice_to_take, fmap_take.
  eapply sublist_NoDup; [|apply sublist_take].
  rewrite sorted_reverse_perm. apply NoDup_fst_map_to_list.
Qed.

Lemma radar_tickers_distinct_witness :
  NoDup (map ticker (map (make_item runtime_x state_x) (ranked state_x 8))).
Proof.
  apply (radar_tickers_distinct runtime_x cfg_x ∅).
  vm_compute. reflexivity.
Defined.

(** X19: Apart from NaN, the radar is in descending order of the totals: no item
    has a total below that of an item after it. *)
Theorem radar_sorted_by_total
    (rt : runtime) (cfg : gmap string value) (stopwords : gset string)
    (st : state) (max_out : Z) (out : list item)
    (i j : nat) (x y : item) (sx sy : float) :
  aggregate rt cfg stopwords = inr (st, max_out) ->
  build_cross_sub_radar rt cfg stopwords = inr out ->
  totals_are_numbers st = true ->
  i < j -> out !! i = Some x -> out !! j = Some y ->
  agg_score st !! ticker x = Some sx -> agg_score st !! ticker y = Some sy ->
  (sx <? sy)%float = false.
Proof.
  intros Hagg Hb Hnan Hij Hx Hy Hsx Hsy.
  apply build_inv in Hb as [->|(st' & m & Hagg' & ->)]; [done|].
  rewrite Hagg in Hagg'. injection Hagg' as <- <-.
  rewrite list_lookup_fmap in Hx, Hy.
  destruct (ranked st max_out !! i) as [a|] eqn:Ea; [|done].
  destruct (ranked st max_out !! j) as [b|] eqn:Eb; [|done].
  injection Hx as <-. injection Hy as <-. simpl in *.
  destruct (radar_ranked_descending _ _ _ _ _ _
              (totals_are_numbers_spec _ Hnan) Hij Ea Eb) as (Hlt & _ & Ha & Hb).
  rewrite Ha in Hsx. rewrite Hb in Hsy. injection Hsx as <-. injection Hsy as <-.
  unfold key_lt in Hlt. destruct (a.2 =? b.2)%float eqn:E; [|done].
  pose proof (totals_are_numbers_spec _ Hnan) as Hn.
  apply float_eqb_rank in E; [|by eapply Hn..].
  apply not_true_iff_false. rewrite float_ltb_rank by (by eapply Hn).
  rewrite E. apply lex3_irrefl.
Qed.

Lemma radar_sorted_by_total_witness : (1.3999999999999999 <? 1.3999999999999999)%float = false.
Proof.
  apply (radar_sorted_by_total runtime_x cfg_x ∅ state_x 8
           (map (make_item runtime_x state_x) (ranked state_x 8)) 0 1
           {| ticker := "GME"; score_2dp := 1.3999999999999999;
              best_post := Some "https://www.reddit.com/r/wsb/comments/2/x";
              best_src_name := Some "r/wsb" |}
           {| ticker := "AND"; score_2dp := 1.3999999999999999;
              best_post := Some "https://www.reddit.com/r/wsb/comments/2/x";
              best_src_name := Some "r/wsb" |}).
  all: vm_compute; reflexivity.
Defined.

Lemma for_each_skip {A S} (body : S -> A -> result S) (before after : list A)
    (x : A) (st : S) :
  (forall st, body st x = inr st) ->
  for_each body st (before ++ x :: after) = for_each body st (before ++ after).
Proof.
  intros Hx. revert st. induction before as [|y before IH]; intros st; simpl.
  - by rewrite Hx.
  - destruct (body st y); simpl; [done|]. apply IH.
Qed.

Lemma process_source_unnamed rt stopwords st s :
  name_of rt s = "" -> process_source rt stopwords st (VDict s) = inr st.
Proof. intros H. unfold process_source, read_source. by rewrite H. Qed.

Lemma aggregate_cross_subs rt cfg stopwords v :
  aggregate rt (<["cross_subs" := v]> cfg) stopwords =
  (max_out ← max_out_of cfg;
   sources ← iter v;
   st ← for_each (process_source rt stopwords) init sources;
   ok (st, max_out)).
Proof.
  unfold aggregate, max_out_of, get.
  rewrite lookup_insert_eq, lookup_insert_ne by done. done.
Qed.

Lemma build_cross_subs rt cfg stopwords v :
  build_cross_sub_radar rt (<["cross_subs" := v]> cfg) stopwords =
  if negb (truthy (get cfg "cross_subs_enabled" (VBool false))) then ok []
  else
    '(st, max_out) ← aggregate rt (<["cross_subs" := v]> cfg) stopwords;
    ok (map (make_item rt st) (ranked st max_out)).
Proof.
  unfold build_cross_sub_radar, get. by rewrite lookup_insert_ne by done.
Qed.

(** X20: An entry of [cross_subs] whose name is blank is passed over before any
    other field is read: the radar is the one of the configuration without
    the entry, whatever its weight, limit or hours are. *)
Theorem unnamed_source_is_skipped
    (rt : runtime) (cfg s : gmap string value) (before after : list value)
    (stopwords : gset string) :
  name_of rt s = "" ->
  build_cross_sub_radar rt
    (<["cross_subs" := VList (before ++ VDict s :: after)]> cfg) stopwords
  = build_cross_sub_radar rt
      (<["cross_subs" := VList (before ++ after)]> cfg) stopwords.
Proof.
  intros Hname. rewrite !build_cross_subs, !aggregate_cross_subs.
  cbn [iter]. destruct (max_out_of cfg); simpl; [done|].
  rewrite for_each_skip; [done|].
  intros st. by apply process_source_unnamed.
Qed.

Lemma unnamed_source_is_skipped_witness :
  build_cross_sub_radar runtime_x
    (<["cross_subs" :=
         VList ([VDict source_wsb]
                ++ VDict {[ "name" := VStr "  "; "weight" := VStr "heavy" ]} :: [])]>
       cfg_x) ∅
  = build_cross_sub_radar runtime_x
      (<["cross_subs" := VList ([VDict source_wsb] ++ [])]> cfg_x) ∅.
Proof.
  apply (unnamed_source_is_skipped runtime_x cfg_x
           {[ "name" := VStr "  "; "weight" := VStr "heavy" ]}
           [VDict source_wsb] [] ∅).
  vm_compute. reflexivity.
Defined.

Lemma for_each_posts_skipped rt stopwords src st l :
  Forall (fun seen : Z * post => in_window src seen.1 seen.2 = false) l ->
  for_each (process_post rt stopwords src) st l = inr st.
Proof.
  induction 1 as [|[now p] l Hw _ IH]; simpl; [done|].
  simpl in Hw. by rewrite Hw.
Qed.

(** X21: Posts whose time stamp cannot be read, and all the posts of a source
    whose look-back is too large for a [timedelta], are passed over: the
    tables stay as they are and nothing is raised. *)
Theorem unreadable_window_is_skipped
    (rt : runtime) (stopwords : gset string) (src : source) (st : state)
    (l : list (Z * post)) :
  (exists e, timedelta_hours (lookback_hours src) = inl e) \/
  Forall (fun seen : Z * post => created_utc seen.2 = None) l ->
  for_each (process_post rt stopwords src) st l = inr st.
Proof.
  intros H. apply for_each_posts_skipped, Forall_forall. intros [now p] Hin.
  unfold in_window, _within_hours. simpl.
  destruct H as [[e He]|H].
  - rewrite He. by destruct (created_utc p).
  - rewrite Forall_forall in H. specialize (H _ Hin). simpl in H.
    by rewrite H.
Qed.

Lemma unreadable_window_is_skipped_witness :
  for_each (process_post runtime_x ∅
              {| name := "wsb"; weight := 1; mode := "hot"; limit_posts := 40;
                 lookback_hours := 1000000000000 |})
    state_x [(1700003600000000%Z, post_x)] = inr state_x.
Proof.
  apply (unreadable_window_is_skipped runtime_x ∅
           {| name := "wsb"; weight := 1; mode := "hot"; limit_posts := 40;
              lookback_hours := 1000000000000 |}
           state_x [(1700003600000000%Z, post_x)]).
  left. exists OverflowError. vm_compute. reflexivity.
Defined.

(** X22: The engagement of a post never exceeds 12, whatever its score and its
    number of comments are. *)
Theorem engagement_is_capped (rt : runtime) (score com : float) :
  (12 <? engagement_of rt score com)%float = false.
Proof.
  unfold engagement_of, fmin. cbv zeta.
  set (e := (1 + log1p rt (fmax 0 score) + 0.5 * log1p rt (fmax 0 com))%float).
  destruct (12 <? e)%float eqn:E; [reflexivity|exact E].
Qed.

(** X23: With the radar enabled and a readable cap, a [cross_subs] that is
    [null], a boolean or a number raises [TypeError]; only a missing key
    gives the empty list of sources. *)
Theorem cross_subs_not_iterable
    (rt : runtime) (cfg : gmap string value) (stopwords : gset string)
    (v : value) (max_out : Z) :
  truthy (get cfg "cross_subs_enabled" (VBool false)) = true ->
  max_out_of cfg = inr max_out ->
  not_iterable v = true ->
  build_cross_sub_radar rt (<["cross_subs" := v]> cfg) stopwords = inl TypeError
  /\ build_cross_sub_radar rt (delete "cross_subs" cfg) stopwords = inr [].
Proof.
  intros Hen Hm Hv. split.
  - rewrite build_cross_subs, aggregate_cross_subs, Hen, Hm. simpl.
    by destruct v.
  - assert (Hagg : aggregate rt (delete "cross_subs" cfg) stopwords
                    = inr (init, max_out)).
    { unfold aggregate. unfold max_out_of, get in *.
      rewrite lookup_delete_eq, lookup_delete_ne by done.
      rewrite Hm. reflexivity. }
    unfold build_cross_sub_radar. rewrite Hagg.
    unfold get in *. rewrite lookup_delete_ne by done. rewrite Hen. simpl.
    unfold ranked, init. simpl. rewrite map_to_list_empty. simpl.
    unfold slice_to. destruct (0 <=? max_out)%Z; by rewrite take_nil.
Qed.

Lemma cross_subs_not_iterable_witness :
  build_cross_sub_radar runtime_x (<["cross_subs" := VNone]> cfg_x) ∅
    = inl TypeError
  /\ build_cross_sub_radar runtime_x (delete "cross_subs" cfg_x) ∅ = inr [].
Proof.
  apply (cross_subs_not_iterable runtime_x cfg_x ∅ VNone 8);
    vm_compute; reflexivity.
Defined.

End RadarExtras.

(** * The report *)
Section ReportFacts.
Import Text Filter Py Design Design2 Facts Examples Examples2.
Import Report.

Lemma present_reddit x : present (Some (Scoreboard.REDDIT +:+ x)) = true.
Proof. reflexivity. Qed.

Lemma present_label x : present (Some ("r/" +:+ x)) = true.
Proof. reflexivity. Qed.

(** X24: In the report every ticker of the scoreboard comes with its top
    comment: for the items [build_scoreboard] returns, the line without a
    link is never written. *)
Theorem scoreboard_lines_carry_link
    (top : list Scoreboard.comment) (stopwords : gset string) (max_tickers : Z)
    (i : nat) (it : Scoreboard.item) :
  In it (Scoreboard.build_scoreboard top stopwords max_tickers) ->
  exists link,
    Scoreboard.best_comment it = Some link /\
    item_line i it =
      str_of_nat i +:+ ". " +:+ Scoreboard.ticker it +:+ " " +:+ EM_DASH +:+ " "
      +:+ str_of_nat (Scoreboard.unique_authors it)
      +:+ " unique posters " +:+ EM_DASH +:+ " top comment: " +:+ link.
Proof.
  intros (c & b & a & _ & _ & _ & _ & Hb)%build_scoreboard_evidence.
  eexists. split; [exact Hb|].
  unfold item_line. rewrite Hb, present_reddit. reflexivity.
Qed.

Lemma scoreboard_lines_carry_link_witness :
  exists link,
    Some "https://www.reddit.com/r/sss/comments/1/a" = Some link /\
    item_line 1 {| Scoreboard.ticker := "GME"; Scoreboard.unique_authors := 1;
                   Scoreboard.best_comment :=
                     Some "https://www.reddit.com/r/sss/comments/1/a" |} =
      str_of_nat 1 +:+ ". " +:+ "GME" +:+ " " +:+ EM_DASH +:+ " "
      +:+ str_of_nat 1
      +:+ " unique posters " +:+ EM_DASH +:+ " top comment: " +:+ link.
Proof.
  apply (scoreboard_lines_carry_link [comment_a] ∅ 12 1
           {| Scoreboard.ticker := "GME"; Scoreboard.unique_authors := 1;
              Scoreboard.best_comment :=
                Some "https://www.reddit.com/r/sss/comments/1/a" |}).
  vm_compute. left. reflexivity.
Defined.

(** X25: In the report every ticker of the radar comes with its source and its
    post: for the items [build_cross_sub_radar] returns, the shorter lines
    are never written. *)
Theorem radar_lines_carry_source_and_link
    (rt : Radar.runtime) (cfg : gmap string value) (stopwords : gset string)
    (out : list Radar.item) (fmt : float -> string) (it : Radar.item) :
  Radar.build_cross_sub_radar rt cfg stopwords = inr out ->
  In it out ->
  exists link src,
    Radar.best_post it = Some link /\ Radar.best_src_name it = Some src /\
    radar_line fmt it =
      ("- " +:+ Radar.ticker it +:+ " " +:+ EM_DASH +:+ " radar score "
       +:+ fmt (Radar.score_2dp it))
      +:+ " " +:+ EM_DASH +:+ " " +:+ src +:+ ": " +:+ link.
Proof.
  intros Hb Hin.
  destruct (radar_evidence_present_aux _ _ _ _ _ Hb Hin) as (o & Ho & Hl & Hs).
  exists o.2.1, o.2.2. split_and!; [done..|].
  unfold radar_line. rewrite Hl, Hs.
  apply list_elem_of_In in Ho. unfold post_observations in Ho.
  destruct (iter _) as [|sources]; [by apply elem_of_nil in Ho|].
  apply list_elem_of_omap in Ho as ([src [now p]] & _ & Ho).
  unfold post_observation in Ho.
  destruct (_ && _); [|done].
  destruct (float_of_int _); [done|]. destruct (float_of_int _); [done|].
  injection Ho as <-. simpl. reflexivity.
Qed.

Lemma radar_lines_carry_source_and_link_witness :
  exists link src,
    Some "https://www.reddit.com/r/wsb/comments/2/x" = Some link /\
    Some "r/wsb" = Some src /\
    radar_line (fun _ => "1.4")
      {| Radar.ticker := "GME"; Radar.score_2dp := 1.3999999999999999;
         Radar.best_post := Some "https://www.reddit.com/r/wsb/comments/2/x";
         Radar.best_src_name := Some "r/wsb" |} =
      ("- " +:+ "GME" +:+ " " +:+ EM_DASH +:+ " radar score " +:+ "1.4")
      +:+ " " +:+ EM_DASH +:+ " " +:+ src +:+ ": " +:+ link.
Proof.
  apply (radar_lines_carry_source_and_link runtime_x cfg_x ∅
           (map (Radar.make_item runtime_x state_x) (Radar.ranked state_x 8))
           (fun _ => "1.4")
           {| Radar.ticker := "GME"; Radar.score_2dp := 1.3999999999999999;
              Radar.best_post := Some "https://www.reddit.com/r/wsb/comments/2/x";
              Radar.best_src_name := Some "r/wsb" |}).
  - vm_compute. reflexivity.
  - vm_compute. left. reflexivity.
Defined.

End ReportFacts.
